(** * gosqlite: the C glue between the managed runtime and the SQL engine

    The four C files of [vendor/github.com/gwenn/gosqlite] ([hook.c],
    [trace.c], [function.c], [config.c]) hand callbacks of the managed side
    to the native engine and forward the engine's calls back to it.
    This development embeds those functions over a small model of the
    engine's callback slots and states the properties the specification
    gives for them. *)

From Stdlib Require Import ZArith List Bool.
From stdpp Require Import base option list gmap strings.

Local Open Scope Z_scope.

(** ** Foreign values *)

(** [void *]: an opaque user-data token; [NULL] is the null pointer. *)
Definition ptr : Type := Z.
Definition NULL : ptr := 0.

(** [sqlite3 *]: a connection handle. *)
Definition sqlite3 : Type := Z.

(** Result codes and the configuration verb of [sqlite3.h] used by the glue. *)
Definition SQLITE_OK : Z := 0.
Definition SQLITE_MISUSE : Z := 21.
Definition SQLITE_CONFIG_LOG : Z := 16.

(** Function pointers the glue passes to the engine.  The [goX...] ones are
    the exports of the managed side declared [extern] in the C files (or in
    [_cgo_export.h]); the [c...] ones are the three static trampolines of
    [function.c]. *)
Inductive fnptr : Type :=
  | goXCommitHook | goXRollbackHook | goXUpdateHook
  | goXTrace | goXProfile | goXAuth | goXBusy | goXProgress | goXLog
  | goXDestroy | goXAuxDataDestroy
  | cXFunc_ptr | cXStep_ptr | cXFinal_ptr.

Global Instance fnptr_eq_dec : EqDecision fnptr.
Proof. solve_decision. Defined.

(** The per-connection hook slots of the engine. *)
Inductive hook : Type :=
  | CommitHook | RollbackHook | UpdateHook
  | TraceHook | ProfileHook
  | Authorizer | BusyHandler | ProgressHandler.

Global Instance hook_eq_dec : EqDecision hook.
Proof. solve_decision. Defined.

Definition hook_code (h : hook) : nat :=
  match h with
  | CommitHook => 0 | RollbackHook => 1 | UpdateHook => 2
  | TraceHook => 3 | ProfileHook => 4
  | Authorizer => 5 | BusyHandler => 6 | ProgressHandler => 7
  end%nat.

Definition hook_of_code (n : nat) : hook :=
  match n with
  | 0 => CommitHook | 1 => RollbackHook | 2 => UpdateHook
  | 3 => TraceHook | 4 => ProfileHook
  | 5 => Authorizer | 6 => BusyHandler | _ => ProgressHandler
  end%nat.

Global Instance hook_countable : Countable hook.
Proof. by apply (inj_countable' hook_code hook_of_code); intros []. Defined.

(** A typed SQL value as the engine hands it to a function ([sqlite3_value]). *)
Inductive sqlite3_value : Type :=
  | SqlNull
  | SqlInt (n : Z)
  | SqlText (s : string)
  | SqlBlob (b : list Z).

(** An argument of the variadic [sqlite3_config]. *)
Inductive cfg_arg : Type :=
  | CfgInt (n : Z)
  | CfgFn (fn : option fnptr)
  | CfgPtr (p : ptr).

(** ** The engine

    The native engine ([sqlite3_*]) is an external library of which the
    sources hold only the calls.  The model keeps what the specification says
    of it: one slot per connection and hook, holding the callback and the
    user-data token, which the engine "stores and passes back unmodified on
    invocation"; a slot per function; a process-wide log sink; and a
    destructor callback, where one was given, called "when a slot is replaced
    or the connection closes".  What the specification leaves open follows
    the C interface the glue is written against ([sqlite3.h]): a hook
    function returns the token it replaces, a null callback empties the slot,
    and the trace and the profile callback displace each other.

    The model is an engine in which no statement is running and which accepts
    what it is asked.  It leaves out the engine's refusals by argument (a
    function arity outside -1..127, a function name of more than 255 bytes,
    after which the engine calls the destructor on the token just given), its
    refusals while statements run ([SQLITE_BUSY]), and the way it tells
    functions apart (names compared without regard to case, one entry per
    text encoding): the properties below that follow a function through later
    calls keep to registrations within those limits.  A call on a handle that
    is not open is undefined in the C interface; the model answers it as an
    engine built with argument checks does, [SQLITE_MISUSE] or a null result
    and nothing changed, and likewise for configuration once the library is
    in use, which some versions of the engine allow for some verbs. *)

Record slot : Type := Slot { slot_fn : fnptr; slot_udp : ptr }.

Record func_slot : Type := FuncSlot {
  fn_eTextRep : Z;
  fn_pApp : ptr;
  fn_xFunc : option fnptr;
  fn_xStep : option fnptr;
  fn_xFinal : option fnptr;
  fn_xDestroy : option fnptr
}.

(** A destructor callback the engine has made: which function, on which token. *)
Definition destructor_call : Type := (fnptr * ptr)%type.

(** Modelled from the spec: the state of the native engine, which is not part
    of the sources (section 3: single slot per hook, token stored and passed
    back unmodified, destructor callback on replacement and on close). *)
Record engine : Type := Engine {
  opened : gset Z;                           (* the open connections *)
  hooks : gmap (Z * hook) slot;              (* hook slots, by connection *)
  funcs : gmap (Z * string * Z) func_slot;   (* function slots *)
  log_fn : option fnptr;                     (* process-wide log sink *)
  log_arg : ptr;
  settings : list (Z * list cfg_arg);        (* other configuration verbs *)
  initialized : bool;
  destroyed : list destructor_call           (* destructor callbacks made, oldest first *)
}.

Definition is_open (e : engine) (db : sqlite3) : bool := bool_decide (db ∈ opened e).

Definition set_hooks (h : gmap (Z * hook) slot) (e : engine) : engine :=
  Engine (opened e) h (funcs e) (log_fn e) (log_arg e) (settings e)
         (initialized e) (destroyed e).

Definition set_funcs (f : gmap (Z * string * Z) func_slot)
    (d : list destructor_call) (e : engine) : engine :=
  Engine (opened e) (hooks e) f (log_fn e) (log_arg e) (settings e)
         (initialized e) d.

Definition set_log (fn : option fnptr) (udp : ptr) (e : engine) : engine :=
  Engine (opened e) (hooks e) (funcs e) fn udp (settings e) (initialized e) (destroyed e).

(** State passing: an engine entry point returns its C result and the new
    engine state. *)
Definition eng (A : Type) : Type := engine → A * engine.

(** A C call whose result is dropped. *)
Definition discard {A} (m : eng A) : eng unit := λ e, (tt, snd (m e)).

(** The token a slot holds, [NULL] when it is empty. *)
Definition slot_token (s : option slot) : ptr :=
  match s with Some s => slot_udp s | None => NULL end.

(** Modelled from the spec: the engine taking a callback and its token into
    the single slot of a hook (the engine is not part of the sources).  A
    null callback clears the slot; the token the slot held is the result.
    The branch for a handle that is not open is the model's choice: the C
    interface leaves such a call undefined. *)
Definition install (db : sqlite3) (h : hook) (fn : option fnptr) (udp : ptr) : eng ptr :=
  λ e,
    if is_open e db then
      let old := slot_token (hooks e !! (db, h)) in
      match fn with
      | Some f => (old, set_hooks (<[(db, h) := Slot f udp]> (hooks e)) e)
      | None => (old, set_hooks (delete (db, h) (hooks e)) e)
      end
    else (NULL, e).

(** Modelled from the spec: the result code of a registration that has one
    (the engine is not part of the sources).  [SQLITE_MISUSE] for a handle
    that is not open is the model's choice: the C interface leaves such a
    call undefined. *)
Definition status (e : engine) (db : sqlite3) : Z :=
  if is_open e db then SQLITE_OK else SQLITE_MISUSE.

(** Modelled from the spec: the engine taking a callback off (the engine is
    not part of the sources). *)
Definition take_off (db : sqlite3) (h : hook) (e : engine) : engine :=
  if is_open e db then set_hooks (delete (db, h) (hooks e)) e else e.

Definition sqlite3_commit_hook (db : sqlite3) (fn : option fnptr) (udp : ptr) : eng ptr :=
  install db CommitHook fn udp.
Definition sqlite3_rollback_hook (db : sqlite3) (fn : option fnptr) (udp : ptr) : eng ptr :=
  install db RollbackHook fn udp.
Definition sqlite3_update_hook (db : sqlite3) (fn : option fnptr) (udp : ptr) : eng ptr :=
  install db UpdateHook fn udp.
(** Modelled from the spec: registration of the trace and of the profile
    callback (the engine is not part of the sources).  The two share the
    engine's one tracing facility, which serves one of them at a time:
    registering either takes the other off.  The token the engine may still
    hand back for a callback it has taken off is not modelled; [trace.c]
    drops the result of both functions. *)
Definition sqlite3_trace (db : sqlite3) (fn : option fnptr) (udp : ptr) : eng ptr :=
  λ e, (fst (install db TraceHook fn udp e),
        take_off db ProfileHook (snd (install db TraceHook fn udp e))).
Definition sqlite3_profile (db : sqlite3) (fn : option fnptr) (udp : ptr) : eng ptr :=
  λ e, (fst (install db ProfileHook fn udp e),
        take_off db TraceHook (snd (install db ProfileHook fn udp e))).
Definition sqlite3_set_authorizer (db : sqlite3) (fn : option fnptr) (udp : ptr) : eng Z :=
  λ e, (status e db, snd (install db Authorizer fn udp e)).
Definition sqlite3_busy_handler (db : sqlite3) (fn : option fnptr) (udp : ptr) : eng Z :=
  λ e, (status e db, snd (install db BusyHandler fn udp e)).
(** The progress handler is disabled when the period is less than one. *)
Definition sqlite3_progress_handler (db : sqlite3) (numOps : Z)
    (fn : option fnptr) (udp : ptr) : eng unit :=
  discard (install db ProgressHandler (if 0 <? numOps then fn else None) udp).

(** The destructor callback owed for a function slot that goes away. *)
Definition owed (fs : option func_slot) : list destructor_call :=
  match fs with
  | Some s => match fn_xDestroy s with Some d => [(d, fn_pApp s)] | None => [] end
  | None => []
  end.

(** Modelled from the spec: the engine registering a function (the engine is
    not part of the sources).  The slot of that connection, name and arity
    takes the new implementation, the destructor of the one it held is
    called, and three null implementations delete the function.  This is the
    engine accepting a registration whose name is in use, if at all, for that
    very function: the refusals, the comparison of names without regard to
    case and the entries per text encoding are left out (see [registrable]
    and [leaves_function] below for the limits the properties keep to). *)
Definition sqlite3_create_function_v2 (db : sqlite3) (zFunctionName : string)
    (nArg eTextRep : Z) (pApp : ptr) (xFunc xStep xFinal xDestroy : option fnptr) : eng Z :=
  λ e,
    if is_open e db then
      let key := (db, zFunctionName, nArg) in
      let d := destroyed e ++ owed (funcs e !! key) in
      match xFunc, xStep, xFinal with
      | None, None, None => (SQLITE_OK, set_funcs (delete key (funcs e)) d e)
      | _, _, _ =>
          (SQLITE_OK,
           set_funcs (<[key := FuncSlot eTextRep pApp xFunc xStep xFinal xDestroy]> (funcs e)) d e)
      end
    else (SQLITE_MISUSE, e).

(** Modelled from the spec: opening and closing a connection (the engine is
    not part of the sources).  Closing empties the connection's hook slots
    and deletes its functions, calling each destructor that was given.  No
    statement is pending in the model, so closing an open connection is not
    refused. *)
Definition sqlite3_open (db : sqlite3) : eng Z :=
  λ e, (SQLITE_OK,
        Engine ({[db]} ∪ opened e) (hooks e) (funcs e) (log_fn e) (log_arg e)
               (settings e) true (destroyed e)).

Definition of_conn {A} (db : sqlite3) (kv : Z * string * Z * A) : Prop := kv.1.1.1 = db.
Definition hook_of_conn {A} (db : sqlite3) (kv : Z * hook * A) : Prop := kv.1.1 = db.

Global Instance of_conn_dec {A} db (kv : Z * string * Z * A) : Decision (of_conn db kv).
Proof. unfold of_conn. apply _. Defined.
Global Instance hook_of_conn_dec {A} db (kv : Z * hook * A) : Decision (hook_of_conn db kv).
Proof. unfold hook_of_conn. apply _. Defined.

Definition close_calls (db : sqlite3) (f : gmap (Z * string * Z) func_slot) : list destructor_call :=
  map_to_list (filter (of_conn db) f) ≫= λ kv, owed (Some kv.2).

Definition sqlite3_close (db : sqlite3) : eng Z :=
  λ e,
    if is_open e db then
      (SQLITE_OK,
       Engine (opened e ∖ {[db]})
              (filter (λ kv, ¬ hook_of_conn db kv) (hooks e))
              (filter (λ kv, ¬ of_conn db kv) (funcs e))
              (log_fn e) (log_arg e) (settings e) (initialized e)
              (destroyed e ++ close_calls db (funcs e)))
    else (SQLITE_MISUSE, e).

(** Modelled from the spec: configuration of the engine (the engine is not
    part of the sources).  [SQLITE_CONFIG_LOG] takes the process-wide sink
    and its user data; any other verb is recorded with its arguments.  Which
    verbs the engine knows, and which it still takes once the library is in
    use, depends on its version: the model refuses all of them then and
    knows every verb. *)
Definition sqlite3_config (op : Z) (args : list cfg_arg) : eng Z :=
  λ e,
    if initialized e then (SQLITE_MISUSE, e)
    else if op =? SQLITE_CONFIG_LOG then
      match args with
      | [CfgFn fn; CfgPtr udp] => (SQLITE_OK, set_log fn udp e)
      | _ => (SQLITE_MISUSE, e)
      end
    else
      (SQLITE_OK,
       Engine (opened e) (hooks e) (funcs e) (log_fn e) (log_arg e)
              (settings e ++ [(op, args)]) (initialized e) (destroyed e)).

(** ** What the engine calls back

    An event of the engine with the native arguments of the hook it fires. *)
Inductive event : Type :=
  | EvCommit
  | EvRollback
  | EvUpdate (action : Z) (dbName tableName : string) (rowID : Z)
  | EvTrace (sql : string)
  | EvProfile (sql : string) (nanoseconds : Z)
  | EvAuth (action : Z) (arg1 arg2 dbName triggerName : option string)
  | EvBusy (count : Z)
  | EvProgress.

Definition hook_of (ev : event) : hook :=
  match ev with
  | EvCommit => CommitHook
  | EvRollback => RollbackHook
  | EvUpdate _ _ _ _ => UpdateHook
  | EvTrace _ => TraceHook
  | EvProfile _ _ => ProfileHook
  | EvAuth _ _ _ _ _ => Authorizer
  | EvBusy _ => BusyHandler
  | EvProgress => ProgressHandler
  end.

(** A call the engine makes into a registered callback: the function, the
    user data it stored for it, and the native arguments. *)
Record callback : Type := Callback {
  cb_fn : fnptr;
  cb_udp : ptr;
  cb_args : event
}.

(** Modelled from the spec: the callback the engine makes for an event on a
    connection, if the slot of that hook is taken (the engine is not part of
    the sources): the registered function on the stored token. *)
Definition fire (e : engine) (db : sqlite3) (ev : event) : option callback :=
  match hooks e !! (db, hook_of ev) with
  | Some s => Some (Callback (slot_fn s) (slot_udp s) ev)
  | None => None
  end.

(** Modelled from the spec: the call the engine makes to the log sink for a
    message, if there is one (the engine is not part of the sources). *)
Definition fire_log (e : engine) (err : Z) (msg : string) : option (fnptr * ptr * Z * string) :=
  match log_fn e with
  | Some f => Some (f, log_arg e, err, msg)
  | None => None
  end.

(** ** hook.c *)

Definition goSqlite3CommitHook (db : sqlite3) (udp : ptr) : eng ptr :=
  sqlite3_commit_hook db (Some goXCommitHook) udp.

Definition goSqlite3RollbackHook (db : sqlite3) (udp : ptr) : eng ptr :=
  sqlite3_rollback_hook db (Some goXRollbackHook) udp.

Definition goSqlite3UpdateHook (db : sqlite3) (udp : ptr) : eng ptr :=
  sqlite3_update_hook db (Some goXUpdateHook) udp.

(** ** trace.c *)

Definition goSqlite3Trace (db : sqlite3) (udp : ptr) : eng unit :=
  discard (sqlite3_trace db (Some goXTrace) udp).

Definition goSqlite3Profile (db : sqlite3) (udp : ptr) : eng unit :=
  discard (sqlite3_profile db (Some goXProfile) udp).

Definition goSqlite3SetAuthorizer (db : sqlite3) (udp : ptr) : eng Z :=
  sqlite3_set_authorizer db (Some goXAuth) udp.

Definition goSqlite3BusyHandler (db : sqlite3) (udp : ptr) : eng Z :=
  sqlite3_busy_handler db (Some goXBusy) udp.

Definition goSqlite3ProgressHandler (db : sqlite3) (numOps : Z) (udp : ptr) : eng unit :=
  sqlite3_progress_handler db numOps (Some goXProgress) udp.

Definition goSqlite3ConfigLog (udp : ptr) : eng Z :=
  if negb (udp =? NULL) then
    sqlite3_config SQLITE_CONFIG_LOG [CfgFn (Some goXLog); CfgPtr udp]
  else
    sqlite3_config SQLITE_CONFIG_LOG [CfgFn None; CfgPtr NULL].

(** ** config.c *)

Definition goSqlite3ConfigThreadMode (mode : Z) : eng Z :=
  sqlite3_config mode [].

Definition goSqlite3Config (op mode : Z) : eng Z :=
  sqlite3_config op [CfgInt mode].

(** ** function.c: registration *)

Definition goSqlite3CreateScalarFunction (db : sqlite3) (zFunctionName : string)
    (nArg eTextRep : Z) (pApp : ptr) : eng Z :=
  sqlite3_create_function_v2 db zFunctionName nArg eTextRep pApp
    (Some cXFunc_ptr) None None (Some goXDestroy).

Definition goSqlite3CreateAggregateFunction (db : sqlite3) (zFunctionName : string)
    (nArg eTextRep : Z) (pApp : ptr) : eng Z :=
  sqlite3_create_function_v2 db zFunctionName nArg eTextRep pApp
    None (Some cXStep_ptr) (Some cXFinal_ptr) (Some goXDestroy).

(** ** function.c: the per-call context and the trampolines *)

(** What a function implementation can write in its context through the
    engine's setters: the auxiliary data attached to its arguments, with
    their destructors, and the result; the engine notes the destructor
    callbacks it makes for auxiliary data. *)
Record call_state : Type := CallState {
  cs_auxdata : gmap Z (ptr * option fnptr);
  cs_result : option sqlite3_value;
  cs_destroyed : list destructor_call
}.

(** [sqlite3_context]: the application data of the function being run, which
    belongs to the engine, and the state of the call. *)
Record sqlite3_context : Type := Context {
  ctx_user_data : ptr;
  ctx_state : call_state
}.

Definition new_context (pApp : ptr) : sqlite3_context :=
  Context pApp (CallState ∅ None []).

Definition sqlite3_user_data (ctx : sqlite3_context) : ptr := ctx_user_data ctx.

Definition sqlite3_get_auxdata (ctx : sqlite3_context) (N : Z) : ptr :=
  match cs_auxdata (ctx_state ctx) !! N with Some (p, _) => p | None => NULL end.

Definition owed_aux (a : option (ptr * option fnptr)) : list destructor_call :=
  match a with Some (p, Some d) => [(d, p)] | _ => [] end.

(** Modelled from the spec: the engine attaching auxiliary data to an
    argument (the engine is not part of the sources): it replaces what the
    argument carried and calls the destructor of the datum replaced. *)
Definition sqlite3_set_auxdata (ctx : sqlite3_context) (N : Z) (ad : ptr)
    (xDelete : option fnptr) : sqlite3_context :=
  let st := ctx_state ctx in
  Context (ctx_user_data ctx)
          (CallState (<[N := (ad, xDelete)]> (cs_auxdata st)) (cs_result st)
                     (cs_destroyed st ++ owed_aux (cs_auxdata st !! N))).

(** The value setter [sqlite3_result_int64]. *)
Definition sqlite3_result_int64 (ctx : sqlite3_context) (n : Z) : sqlite3_context :=
  let st := ctx_state ctx in
  Context (ctx_user_data ctx)
          (CallState (cs_auxdata st) (Some (SqlInt n)) (cs_destroyed st)).

Definition goSqlite3SetAuxdata (ctx : sqlite3_context) (N : Z) (ad : ptr) : sqlite3_context :=
  sqlite3_set_auxdata ctx N ad (Some goXAuxDataDestroy).

(** How a call into the managed side ends: it returns, or an abnormal
    termination of the managed code unwinds through the caller's frame. *)
Inductive outcome (A : Type) : Type :=
  | Returned (a : A)
  | Unwound.
Arguments Returned {A} a.
Arguments Unwound {A}.

Section Trampolines.
(** The state of the managed side, which the C code never looks into. *)
Context {M : Type}.

(** A C computation that may call into the managed side. *)
Definition cgo (A : Type) : Type := M → outcome (A * M).

Definition cret {A} (a : A) : cgo A := λ m, Returned (a, m).
Definition cbind {A B} (c : cgo A) (k : A → cgo B) : cgo B :=
  λ m, match c m with
       | Returned (a, m') => k a m'
       | Unwound => Unwound
       end.

(** The exports of the managed side that [function.c] calls
    ([_cgo_export.h]); their bodies are not part of the C sources.  Each
    gets the context by pointer and can write it through the setters only:
    the call state it leaves is what it returns. *)
Variable goXFunc :
  sqlite3_context → ptr → ptr → Z → list sqlite3_value → cgo call_state.
Variable goXStep :
  sqlite3_context → ptr → Z → list sqlite3_value → cgo call_state.
Variable goXFinal : sqlite3_context → ptr → cgo call_state.

(** The exports the engine calls directly, by function pointer, with the
    user data and the native arguments; the result is the C return value
    (0 for a [void] export). *)
Variable go_export : fnptr → ptr → event → cgo Z.

Definition cXFunc (ctx : sqlite3_context) (argc : Z) (argv : list sqlite3_value)
    : cgo call_state :=
  let udf := sqlite3_user_data ctx in
  let goctx := sqlite3_get_auxdata ctx 0 in
  goXFunc ctx udf goctx argc argv.

Definition cXStep (ctx : sqlite3_context) (argc : Z) (argv : list sqlite3_value)
    : cgo call_state :=
  let udf := sqlite3_user_data ctx in
  goXStep ctx udf argc argv.

Definition cXFinal (ctx : sqlite3_context) : cgo call_state :=
  let udf := sqlite3_user_data ctx in
  goXFinal ctx udf.

(** *** The engine calling through a function pointer *)

(** A pointer of the [xFunc]/[xStep] signature, called by the engine; a
    pointer that is no such function is not called. *)
Definition call_xfunc (f : fnptr) (ctx : sqlite3_context) (argc : Z)
    (argv : list sqlite3_value) : cgo call_state :=
  match f with
  | cXFunc_ptr => cXFunc ctx argc argv
  | cXStep_ptr => cXStep ctx argc argv
  | _ => cret (ctx_state ctx)
  end.

Definition call_xfinal (f : fnptr) (ctx : sqlite3_context) : cgo call_state :=
  match f with
  | cXFinal_ptr => cXFinal ctx
  | _ => cret (ctx_state ctx)
  end.

(** Modelled from the spec: the engine evaluating the scalar function
    [name] on [argv] (the engine is not part of the sources): it looks the
    function up by name and arity, makes a context carrying the application
    data, calls [xFunc] and reads the result back from the context. *)
Definition eval_scalar (e : engine) (db : sqlite3) (name : string)
    (argv : list sqlite3_value) : cgo (option sqlite3_value) :=
  match funcs e !! (db, name, Z.of_nat (length argv)) with
  | Some fs =>
      match fn_xFunc fs with
      | Some f =>
          cbind (call_xfunc f (new_context (fn_pApp fs)) (Z.of_nat (length argv)) argv)
                (λ st, cret (cs_result st))
      | None => cret None
      end
  | None => cret None
  end.

(** Modelled from the spec: the engine running the steps of an aggregate
    over the rows, one context for the whole run, and then the final call
    (the engine is not part of the sources). *)
Fixpoint run_steps (f : fnptr) (ctx : sqlite3_context)
    (rows : list (list sqlite3_value)) : cgo sqlite3_context :=
  match rows with
  | [] => cret ctx
  | argv :: rest =>
      cbind (call_xfunc f ctx (Z.of_nat (length argv)) argv)
            (λ st, run_steps f (Context (ctx_user_data ctx) st) rest)
  end.

Definition eval_aggregate (e : engine) (db : sqlite3) (name : string) (nArg : Z)
    (rows : list (list sqlite3_value)) : cgo (option sqlite3_value) :=
  match funcs e !! (db, name, nArg) with
  | Some fs =>
      match fn_xStep fs, fn_xFinal fs with
      | Some s, Some f =>
          cbind (run_steps s (new_context (fn_pApp fs)) rows)
                (λ ctx, cbind (call_xfinal f ctx) (λ st, cret (cs_result st)))
      | _, _ => cret None
      end
  | None => cret None
  end.

(** The steps and the final call of an aggregate as the managed side sees
    them when every one of them is handed the token [udf]. *)
Fixpoint steps_with (udf : ptr) (st : call_state)
    (rows : list (list sqlite3_value)) : cgo call_state :=
  match rows with
  | [] => cret st
  | argv :: rest =>
      cbind (goXStep (Context udf st) udf (Z.of_nat (length argv)) argv)
            (λ st', steps_with udf st' rest)
  end.

Definition aggregate_with (udf : ptr) (rows : list (list sqlite3_value))
    : cgo (option sqlite3_value) :=
  cbind (steps_with udf (ctx_state (new_context udf)) rows)
        (λ st, cbind (goXFinal (Context udf st) udf) (λ st', cret (cs_result st'))).

(** Modelled from the spec: the engine firing a hook (the engine is not part
    of the sources): the registered export is called with the stored token,
    and its return value is what the engine gets. *)
Definition dispatch (e : engine) (db : sqlite3) (ev : event) : cgo (option Z) :=
  match fire e db ev with
  | Some cb => cbind (go_export (cb_fn cb) (cb_udp cb) (cb_args cb)) (λ r, cret (Some r))
  | None => cret None
  end.
End Trampolines.

(** ** The callback registry of the managed side

    The registry lives on the managed side of the binding, whose sources are
    not among the C files; the engine and the glue above only ever see its
    tokens. *)
Module Registry.

(** Modelled from the spec: the extension-point kinds, as section 3
    enumerates them (the managed side is not part of the C sources). *)
Inductive kind : Type :=
  | ScalarFunction | AggregateStep | AggregateFinal
  | Commit | Rollback | Update
  | Trace | Profile
  | Authorize | Busy | Progress
  | LogSink.

Global Instance kind_eq_dec : EqDecision kind.
Proof. solve_decision. Defined.

Definition kind_code (k : kind) : nat :=
  match k with
  | ScalarFunction => 0 | AggregateStep => 1 | AggregateFinal => 2
  | Commit => 3 | Rollback => 4 | Update => 5
  | Trace => 6 | Profile => 7
  | Authorize => 8 | Busy => 9 | Progress => 10
  | LogSink => 11
  end%nat.

Definition kind_of_code (n : nat) : kind :=
  match n with
  | 0 => ScalarFunction | 1 => AggregateStep | 2 => AggregateFinal
  | 3 => Commit | 4 => Rollback | 5 => Update
  | 6 => Trace | 7 => Profile
  | 8 => Authorize | 9 => Busy | 10 => Progress
  | _ => LogSink
  end%nat.

Global Instance kind_countable : Countable kind.
Proof. by apply (inj_countable' kind_code kind_of_code); intros []. Defined.

(** Modelled from the spec: the error taxonomy of section 7 (the managed
    side is not part of the C sources). *)
Inductive error : Type :=
  | AlreadyClosedError
  | DanglingTokenError
  | ClosureFailure.

(** Modelled from the spec: section 7's propagation policy (the managed
    side is not part of the C sources): an invariant violation is not
    recoverable, an ordinary closure failure is. *)
Definition fatal (err : error) : bool :=
  match err with
  | DanglingTokenError => true
  | AlreadyClosedError | ClosureFailure => false
  end.

Inductive result (A : Type) : Type :=
  | Ok (a : A)
  | Err (err : error).
Arguments Ok {A} a.
Arguments Err {A} err.

Section WithClosure.
(** A managed closure: function pointer and captured state. *)
Context {C : Type}.

(** Modelled from the spec: a registration of section 3 (the managed side
    is not part of the C sources): the owning connection, the kind and
    the closure; its token is the key it is stored under. *)
Record registration : Type := Registration {
  reg_conn : sqlite3;
  reg_kind : kind;
  reg_closure : C
}.

(** Modelled from the spec: the registry of section 4.1 (the managed side
    is not part of the C sources): the mapping from token to closure, the
    token active for each connection and kind, the next token of the
    arena, and the closures released so far, oldest first. *)
Record registry : Type := Reg {
  live : gmap Z registration;
  active : gmap (Z * kind) Z;
  next_token : Z;
  released : list Z
}.

(** Modelled from the spec: the registry before any registration (the
    managed side is not part of the C sources); tokens are issued from 1 on,
    so none is the null pointer. *)
Definition initial : registry := Reg ∅ ∅ 1 [].

(** Modelled from the spec: [resolve] of section 4.1 (the managed side is
    not part of the C sources): it "fails with DanglingTokenError if the
    token was already released". *)
Definition resolve (r : registry) (t : Z) : result C :=
  match live r !! t with
  | Some reg => Ok (reg_closure reg)
  | None => Err DanglingTokenError
  end.

(** Modelled from the spec: [release] of section 4.1 (the managed side is
    not part of the C sources): "tokens are removed on first release, and
    a repeat is a fatal invariant violation, not a silent no-op". *)
Definition release (r : registry) (t : Z) : result registry :=
  match live r !! t with
  | Some reg =>
      Ok (Reg (delete t (live r))
              (delete (reg_conn reg, reg_kind reg) (active r))
              (next_token r)
              (released r ++ [t]))
  | None => Err DanglingTokenError
  end.

(** Modelled from the spec: the first half of [register] (the managed
    side is not part of the C sources): "invalidating and releasing any
    prior closure for the same (connection, kind)". *)
Definition vacate (r : registry) (db : sqlite3) (k : kind) : registry :=
  match active r !! (db, k) with
  | Some prior =>
      match release r prior with
      | Ok r' => r'
      | Err _ => r
      end
  | None => r
  end.

(** Modelled from the spec: the second half of [register] (the managed
    side is not part of the C sources): it "stores the closure ... and
    returns a token". *)
Definition activate (r : registry) (db : sqlite3) (k : kind) (c : C) : Z * registry :=
  let t := next_token r in
  (t, Reg (<[t := Registration db k c]> (live r))
          (<[(db, k) := t]> (active r))
          (t + 1)
          (released r)).

(** Modelled from the spec: [register] of section 4.1 (the managed side
    is not part of the C sources): it "fails with AlreadyClosedError if
    the connection handle is no longer valid; otherwise stores the
    closure, invalidating and releasing any prior closure for the same
    (connection, kind), and returns a token".  The engine state tells
    whether the handle is valid. *)
Definition register (e : engine) (r : registry) (db : sqlite3) (k : kind) (c : C)
    : result (Z * registry) :=
  if is_open e db then Ok (activate (vacate r db k) db k c)
  else Err AlreadyClosedError.

(** A call on the registry, and a sequence of calls run from a state; a
    call that fails leaves the registry as it was. *)
Inductive op : Type :=
  | OpRegister (e : engine) (db : sqlite3) (k : kind) (c : C)
  | OpRelease (t : Z)
  | OpResolve (t : Z).

Definition step (r : registry) (o : op) : registry :=
  match o with
  | OpRegister e db k c =>
      match register e r db k c with
      | Ok (_, r') => r'
      | Err _ => r
      end
  | OpRelease t =>
      match release r t with
      | Ok r' => r'
      | Err _ => r
      end
  | OpResolve _ => r
  end.

Definition run (r : registry) (ops : list op) : registry := foldl step r ops.

(** The states the registry can be in: those a sequence of calls leads
    to from the initial one. *)
Definition reachable (r : registry) : Prop := ∃ ops, r = run initial ops.

(** The bookkeeping is consistent: tokens are positive and below the
    next one, and the index of active tokens and the mapping of live
    registrations describe each other. *)
Definition consistent (r : registry) : Prop :=
  0 < next_token r
  ∧ (∀ t reg, live r !! t = Some reg →
       0 < t < next_token r ∧ active r !! (reg_conn reg, reg_kind reg) = Some t)
  ∧ (∀ db k t, active r !! (db, k) = Some t →
       ∃ reg, live r !! t = Some reg ∧ reg_conn reg = db ∧ reg_kind reg = k).

(** A token that was issued and is no longer live. *)
Definition dead (r : registry) (t : Z) : Prop :=
  live r !! t = None ∧ t < next_token r.
End WithClosure.
Arguments registration : clear implicits.
Arguments registry : clear implicits.
Arguments op : clear implicits.
End Registry.

(** ** Sequences of calls through the glue

    A call the managed side makes on the engine through one of the C entry
    points (or opening and closing a connection), and its effect on the
    engine.  [goSqlite3SetAuxdata] is not among them: the managed side calls
    it from within a function, on the context of that call, and it acts on
    that context (see [set_auxdata_all] below). *)
Inductive call : Type :=
  | CallCommitHook (db : sqlite3) (udp : ptr)
  | CallRollbackHook (db : sqlite3) (udp : ptr)
  | CallUpdateHook (db : sqlite3) (udp : ptr)
  | CallTrace (db : sqlite3) (udp : ptr)
  | CallProfile (db : sqlite3) (udp : ptr)
  | CallSetAuthorizer (db : sqlite3) (udp : ptr)
  | CallBusyHandler (db : sqlite3) (udp : ptr)
  | CallProgressHandler (db : sqlite3) (numOps : Z) (udp : ptr)
  | CallConfigLog (udp : ptr)
  | CallConfigThreadMode (mode : Z)
  | CallConfig (op mode : Z)
  | CallCreateScalarFunction (db : sqlite3) (name : string) (nArg eTextRep : Z) (pApp : ptr)
  | CallCreateAggregateFunction (db : sqlite3) (name : string) (nArg eTextRep : Z) (pApp : ptr)
  | CallOpen (db : sqlite3)
  | CallClose (db : sqlite3).

Definition exec (e : engine) (c : call) : engine :=
  match c with
  | CallCommitHook db udp => snd (goSqlite3CommitHook db udp e)
  | CallRollbackHook db udp => snd (goSqlite3RollbackHook db udp e)
  | CallUpdateHook db udp => snd (goSqlite3UpdateHook db udp e)
  | CallTrace db udp => snd (goSqlite3Trace db udp e)
  | CallProfile db udp => snd (goSqlite3Profile db udp e)
  | CallSetAuthorizer db udp => snd (goSqlite3SetAuthorizer db udp e)
  | CallBusyHandler db udp => snd (goSqlite3BusyHandler db udp e)
  | CallProgressHandler db numOps udp => snd (goSqlite3ProgressHandler db numOps udp e)
  | CallConfigLog udp => snd (goSqlite3ConfigLog udp e)
  | CallConfigThreadMode mode => snd (goSqlite3ConfigThreadMode mode e)
  | CallConfig op mode => snd (goSqlite3Config op mode e)
  | CallCreateScalarFunction db name nArg eTextRep pApp =>
      snd (goSqlite3CreateScalarFunction db name nArg eTextRep pApp e)
  | CallCreateAggregateFunction db name nArg eTextRep pApp =>
      snd (goSqlite3CreateAggregateFunction db name nArg eTextRep pApp e)
  | CallOpen db => snd (sqlite3_open db e)
  | CallClose db => snd (sqlite3_close db e)
  end.

Definition exec_all (e : engine) (cs : list call) : engine := foldl exec e cs.

(** The hook slot a call writes, if it writes one. *)
Definition hook_written (c : call) : option (Z * hook) :=
  match c with
  | CallCommitHook db _ => Some (db, CommitHook)
  | CallRollbackHook db _ => Some (db, RollbackHook)
  | CallUpdateHook db _ => Some (db, UpdateHook)
  | CallTrace db _ => Some (db, TraceHook)
  | CallProfile db _ => Some (db, ProfileHook)
  | CallSetAuthorizer db _ => Some (db, Authorizer)
  | CallBusyHandler db _ => Some (db, BusyHandler)
  | CallProgressHandler db _ _ => Some (db, ProgressHandler)
  | _ => None
  end.

(** The function slot a call writes, with the token it stores there. *)
Definition func_written (c : call) : option (Z * string * Z * ptr) :=
  match c with
  | CallCreateScalarFunction db name nArg _ pApp => Some (db, name, nArg, pApp)
  | CallCreateAggregateFunction db name nArg _ pApp => Some (db, name, nArg, pApp)
  | _ => None
  end.

Definition closes (db : sqlite3) (c : call) : bool :=
  match c with CallClose db' => bool_decide (db' = db) | _ => false end.

(** The hook a call takes off besides the one it writes: binding the trace
    callback takes the profile callback off, and the other way round. *)
Definition hook_displaced (c : call) : option (Z * hook) :=
  match c with
  | CallTrace db _ => Some (db, ProfileHook)
  | CallProfile db _ => Some (db, TraceHook)
  | _ => None
  end.

(** A call leaves a hook slot alone when it neither writes it, nor displaces
    it, nor closes its connection; likewise for a function slot of the
    model. *)
Definition keeps_hook (db : sqlite3) (h : hook) (c : call) : bool :=
  negb (closes db c)
  && negb (bool_decide (hook_written c = Some (db, h)))
  && negb (bool_decide (hook_displaced c = Some (db, h))).

Definition keeps_func (key : Z * string * Z) (c : call) : bool :=
  negb (closes key.1.1 c) &&
  match func_written c with
  | Some (key', _) => negb (bool_decide (key' = key))
  | None => true
  end.

Definition keeps_log (c : call) : bool :=
  match c with
  | CallConfigLog _ | CallConfig _ _ | CallConfigThreadMode _ => false
  | _ => true
  end.

(** Function names as the engine compares them: without regard to the case
    of ASCII letters. *)
Definition lower_ascii (a : Ascii.ascii) : Ascii.ascii :=
  let n := Ascii.nat_of_ascii a in
  if ((65 <=? n) && (n <=? 90))%nat then Ascii.ascii_of_nat (n + 32) else a.

Fixpoint lower (s : string) : string :=
  match s with
  | EmptyString => EmptyString
  | String a s' => String (lower_ascii a) (lower s')
  end.

(** A call registers a function on [db] under a name the engine does not tell
    from [name], whatever its arity and text encoding. *)
Definition names_function (db : sqlite3) (name : string) (c : call) : bool :=
  match func_written c with
  | Some (db', name', _, _) => bool_decide (db' = db ∧ lower name' = lower name)
  | None => false
  end.

(** A call leaves the functions that [db] has under [name] alone: it neither
    closes the connection nor registers a function on it under that name.
    This is on the safe side of what the engine does, which replaces a
    function only by one of the same arity and text encoding. *)
Definition leaves_function (db : sqlite3) (name : string) (c : call) : bool :=
  negb (closes db c) && negb (names_function db name c).

(** The connection has no function under a name the engine does not tell
    from [name]. *)
Definition unnamed (db : sqlite3) (name : string) (e : engine) : Prop :=
  ∀ name' nArg fs, funcs e !! (db, name', nArg) = Some fs → lower name' ≠ lower name.

(** The function registrations the engine does not refuse for their
    arguments ([sqlite3.h]): an arity from -1 (any number of arguments) to
    127 and a name of at most 255 bytes. *)
Definition registrable (name : string) (nArg : Z) : bool :=
  (-1 <=? nArg) && (nArg <=? 127) && (Z.of_nat (String.length name) <=? 255).

(** The glue call that registers a function, scalar or aggregate. *)
Definition register_function (aggregate : bool) (db : sqlite3) (name : string)
    (nArg eTextRep : Z) (pApp : ptr) : call :=
  if aggregate then CallCreateAggregateFunction db name nArg eTextRep pApp
  else CallCreateScalarFunction db name nArg eTextRep pApp.

(** The calls that end a function registration: closing its connection, and
    registering a function on it again under the very same name, arity and
    text encoding. *)
Definition ends_function (db : sqlite3) (name : string) (nArg eTextRep : Z)
    (c : call) : bool :=
  match c with
  | CallClose db' => bool_decide (db' = db)
  | CallCreateScalarFunction db' name' nArg' enc' _
  | CallCreateAggregateFunction db' name' nArg' enc' _ =>
      bool_decide (db' = db ∧ name' = name ∧ nArg' = nArg ∧ enc' = eTextRep)
  | _ => false
  end.

(** A call stores the token [p] as application data of a function. *)
Definition stores_token (p : ptr) (c : call) : bool :=
  match func_written c with
  | Some (_, p') => bool_decide (p' = p)
  | None => false
  end.

(** How often a destructor call occurs in a trace, and how often the engine
    has called the destructor [d] on the token [p]. *)
Definition count_calls (c : destructor_call) (l : list destructor_call) : nat :=
  length (filter (λ x, x = c) l).

Definition delivered (d : fnptr) (p : ptr) (e : engine) : nat :=
  count_calls (d, p) (destroyed e).

(** No function slot holds the token [p]. *)
Definition unheld (p : ptr) (e : engine) : Prop :=
  ∀ k fs, funcs e !! k = Some fs → fn_pApp fs ≠ p.

(** The function slot [key], of an open connection, holds the token [p] with
    [goXDestroy] as its destructor, and no other slot holds [p]. *)
Definition held_at (p : ptr) (key : Z * string * Z) (e : engine) : Prop :=
  is_open e key.1.1 = true
  ∧ (∃ fs, funcs e !! key = Some fs ∧ fn_pApp fs = p ∧ fn_xDestroy fs = Some goXDestroy)
  ∧ ∀ k fs, funcs e !! k = Some fs → fn_pApp fs = p → k = key.

(** No function is registered on the connection. *)
Definition no_functions (db : sqlite3) (e : engine) : Prop :=
  ∀ k fs, funcs e !! k = Some fs → k.1.1 ≠ db.

(** The glue call that binds a hook, and the export it registers for it. *)
Definition bind_hook (h : hook) (db : sqlite3) (numOps : Z) (udp : ptr) : call :=
  match h with
  | CommitHook => CallCommitHook db udp
  | RollbackHook => CallRollbackHook db udp
  | UpdateHook => CallUpdateHook db udp
  | TraceHook => CallTrace db udp
  | ProfileHook => CallProfile db udp
  | Authorizer => CallSetAuthorizer db udp
  | BusyHandler => CallBusyHandler db udp
  | ProgressHandler => CallProgressHandler db numOps udp
  end.

Definition trampoline (h : hook) : fnptr :=
  match h with
  | CommitHook => goXCommitHook
  | RollbackHook => goXRollbackHook
  | UpdateHook => goXUpdateHook
  | TraceHook => goXTrace
  | ProfileHook => goXProfile
  | Authorizer => goXAuth
  | BusyHandler => goXBusy
  | ProgressHandler => goXProgress
  end.

(** The engine before any use: nothing open, nothing registered. *)
Definition fresh_engine : engine := Engine ∅ ∅ ∅ None NULL [] false [].

(** ** Further notions for sequences of calls *)

(** The connection a call is made on; the configuration calls are
    process-wide. *)
Definition conn_of (c : call) : option sqlite3 :=
  match c with
  | CallCommitHook db _ | CallRollbackHook db _ | CallUpdateHook db _
  | CallTrace db _ | CallProfile db _
  | CallSetAuthorizer db _ | CallBusyHandler db _
  | CallProgressHandler db _ _
  | CallCreateScalarFunction db _ _ _ _ | CallCreateAggregateFunction db _ _ _ _
  | CallOpen db | CallClose db => Some db
  | CallConfigLog _ | CallConfigThreadMode _ | CallConfig _ _ => None
  end.

(** The calls that empty the slot of the hook [h] on [db]: closing the
    connection, for the progress handler a period below one, and for the
    trace and the profile callback binding the other of the two. *)
Definition unbinds (db : sqlite3) (h : hook) (c : call) : bool :=
  match c with
  | CallClose db' => bool_decide (db' = db)
  | CallProgressHandler db' numOps _ =>
      bool_decide (db' = db ∧ h = ProgressHandler) && (numOps <=? 0)
  | CallTrace db' _ => bool_decide (db' = db ∧ h = ProfileHook)
  | CallProfile db' _ => bool_decide (db' = db ∧ h = TraceHook)
  | _ => false
  end.

(** The hook [h] is bound on the open connection [db]: its slot holds the
    export the glue registers for it, with some token. *)
Definition bound (e : engine) (db : sqlite3) (h : hook) : Prop :=
  is_open e db = true ∧ ∃ udp, hooks e !! (db, h) = Some (Slot (trampoline h) udp).

(** The three glue functions that return the token they replace. *)
Definition rebind (h : hook) : option (sqlite3 → ptr → eng ptr) :=
  match h with
  | CommitHook => Some goSqlite3CommitHook
  | RollbackHook => Some goSqlite3RollbackHook
  | UpdateHook => Some goSqlite3UpdateHook
  | _ => None
  end.

(** The implementations a function slot made by the glue holds: the scalar
    trampoline alone, or the two aggregate trampolines. *)
Definition glue_shape (fs : func_slot) : Prop :=
  (fn_xFunc fs = Some cXFunc_ptr ∧ fn_xStep fs = None ∧ fn_xFinal fs = None)
  ∨ (fn_xFunc fs = None ∧ fn_xStep fs = Some cXStep_ptr ∧ fn_xFinal fs = Some cXFinal_ptr).

(** Every slot belongs to an open connection and holds what the glue
    registers for it: a hook slot the export of its hook, a function slot the
    trampolines of [function.c] with [goXDestroy] as destructor. *)
Definition well_formed (e : engine) : Prop :=
  (∀ db h s, hooks e !! (db, h) = Some s →
     is_open e db = true ∧ slot_fn s = trampoline h)
  ∧ (∀ key fs, funcs e !! key = Some fs →
       is_open e key.1.1 = true ∧ fn_xDestroy fs = Some goXDestroy ∧ glue_shape fs).

(** A sequence of [goSqlite3SetAuxdata] calls made on the context of a
    function call, each with the argument number and the datum. *)
Definition set_auxdata_all (ctx : sqlite3_context) (l : list (Z * ptr)) : sqlite3_context :=
  foldl (λ ctx x, goSqlite3SetAuxdata ctx x.1 x.2) ctx l.

(** Some call of the sequence stored the token as application data of a
    function. *)
Definition stored_by (cs : list call) (p : ptr) : Prop :=
  ∃ c, c ∈ cs ∧ stores_token p c = true.

(** The function slots hold, and the destructor callbacks were made on,
    tokens that calls of the sequence stored, with [goXDestroy]. *)
Definition accounted (cs : list call) (e : engine) : Prop :=
  (∀ key fs, funcs e !! key = Some fs →
     fn_xDestroy fs = Some goXDestroy ∧ stored_by cs (fn_pApp fs))
  ∧ (∀ x, x ∈ destroyed e → x.1 = goXDestroy ∧ stored_by cs x.2).

(** * Properties *)

(** ** Hook slots *)

Lemma install_open db h f udp e :
  is_open e db = true →
  install db h (Some f) udp e
  = (slot_token (hooks e !! (db, h)), set_hooks (<[(db, h) := Slot f udp]> (hooks e)) e).
Proof. intros Ho. unfold install. by rewrite Ho. Qed.

Lemma install_closed db h fn udp e :
  is_open e db = false → install db h fn udp e = (NULL, e).
Proof. intros Ho. unfold install. by rewrite Ho. Qed.

Lemma install_keeps_open db h fn udp e db' :
  is_open (snd (install db h fn udp e)) db' = is_open e db'.
Proof. unfold install. destruct (is_open e db), fn; reflexivity. Qed.

Lemma install_slot db h f udp e :
  is_open e db = true →
  hooks (snd (install db h (Some f) udp e)) !! (db, h) = Some (Slot f udp).
Proof. intros Ho. rewrite install_open by done. simpl. apply lookup_insert_eq. Qed.

Lemma install_other db h fn udp e k :
  k ≠ (db, h) → hooks (snd (install db h fn udp e)) !! k = hooks e !! k.
Proof.
  intros Hne. unfold install.
  destruct (is_open e db); [|done].
  destruct fn; simpl; [by rewrite lookup_insert_ne|by rewrite lookup_delete_ne].
Qed.

Lemma take_off_keeps_open db h e db' : is_open (take_off db h e) db' = is_open e db'.
Proof. unfold take_off. by destruct (is_open e db). Qed.

Lemma take_off_other db h e k : k ≠ (db, h) → hooks (take_off db h e) !! k = hooks e !! k.
Proof.
  intros Hne. unfold take_off. destruct (is_open e db); [|done].
  simpl. by rewrite lookup_delete_ne.
Qed.

Lemma take_off_slot db h e : is_open e db = true → hooks (take_off db h e) !! (db, h) = None.
Proof. intros Ho. unfold take_off. rewrite Ho. simpl. apply lookup_delete_eq. Qed.

Lemma take_off_frame db h e :
  opened (take_off db h e) = opened e
  ∧ funcs (take_off db h e) = funcs e
  ∧ destroyed (take_off db h e) = destroyed e
  ∧ log_fn (take_off db h e) = log_fn e
  ∧ log_arg (take_off db h e) = log_arg e.
Proof. unfold take_off. by destruct (is_open e db). Qed.

(** C10: on an open connection, registering a commit, rollback or update hook
    a second time returns the token of the first registration to the caller.
    For trace and profile the engine hands the previous token back just the
    same, but the glue function is [void]: what it returns does not depend on
    the token it replaced. *)
Theorem hook_registration_returns_previous_token (e : engine) (db : sqlite3) (p1 p2 : ptr) :
  is_open e db = true →
  (fst (goSqlite3CommitHook db p2 (snd (goSqlite3CommitHook db p1 e))) = p1
   ∧ fst (goSqlite3RollbackHook db p2 (snd (goSqlite3RollbackHook db p1 e))) = p1
   ∧ fst (goSqlite3UpdateHook db p2 (snd (goSqlite3UpdateHook db p1 e))) = p1)
  ∧ (fst (sqlite3_trace db (Some goXTrace) p2 (snd (goSqlite3Trace db p1 e))) = p1
     ∧ fst (sqlite3_profile db (Some goXProfile) p2 (snd (goSqlite3Profile db p1 e))) = p1)
  ∧ (∀ q1 : ptr,
       fst (goSqlite3Trace db p2 (snd (goSqlite3Trace db p1 e)))
       = fst (goSqlite3Trace db p2 (snd (goSqlite3Trace db q1 e)))
       ∧ fst (goSqlite3Profile db p2 (snd (goSqlite3Profile db p1 e)))
         = fst (goSqlite3Profile db p2 (snd (goSqlite3Profile db q1 e)))).
Proof.
  intros Ho.
  assert (Hret : ∀ h f, fst (install db h (Some f) p2 (snd (install db h (Some f) p1 e))) = p1).
  { intros h f. rewrite (install_open db h f p2).
    - simpl. by rewrite install_slot.
    - by rewrite install_keeps_open. }
  assert (Hret' : ∀ h h' f, h' ≠ h →
            fst (install db h (Some f) p2
                   (take_off db h' (snd (install db h (Some f) p1 e)))) = p1).
  { intros h h' f Hne. rewrite install_open.
    - simpl. rewrite take_off_other by congruence. by rewrite install_slot.
    - by rewrite take_off_keeps_open, install_keeps_open. }
  split; [|split].
  - repeat split; apply Hret.
  - split.
    + exact (Hret' TraceHook ProfileHook goXTrace ltac:(discriminate)).
    + exact (Hret' ProfileHook TraceHook goXProfile ltac:(discriminate)).
  - intros q1. split; reflexivity.
Qed.

Lemma hook_registration_returns_previous_token_witness :
  let e := snd (sqlite3_open 1 fresh_engine) in
  fst (goSqlite3CommitHook 1 8 (snd (goSqlite3CommitHook 1 7 e))) = 7
  ∧ fst (goSqlite3Trace 1 8 (snd (goSqlite3Trace 1 7 e))) = tt.
Proof.
  intros e.
  destruct (hook_registration_returns_previous_token e 1 7 8) as [[Hc _] _];
    [vm_compute; reflexivity|].
  split; [exact Hc|reflexivity].
Defined.

(** ** The log sink *)

Lemma sqlite3_config_log fn udp e :
  sqlite3_config SQLITE_CONFIG_LOG [CfgFn fn; CfgPtr udp] e
  = if initialized e then (SQLITE_MISUSE, e) else (SQLITE_OK, set_log fn udp e).
Proof. unfold sqlite3_config. destruct (initialized e); reflexivity. Qed.

Lemma goSqlite3ConfigLog_call udp e :
  goSqlite3ConfigLog udp e
  = sqlite3_config SQLITE_CONFIG_LOG
      [CfgFn (if bool_decide (udp = NULL) then None else Some goXLog);
       CfgPtr (if bool_decide (udp = NULL) then NULL else udp)] e.
Proof.
  unfold goSqlite3ConfigLog. case_bool_decide as Hn.
  - subst udp. reflexivity.
  - destruct (Z.eqb_spec udp NULL); [done|reflexivity].
Qed.

(** C9: [goSqlite3ConfigLog] with a null token asks the engine for a null
    sink and null user data, and with any other token for [goXLog] with that
    token; what it returns is what that engine call returns.  So it ends
    either with the engine's refusal and nothing changed, or with
    [SQLITE_OK] and the sink as asked: unregistered (callback and user data
    both null) for the null token, [goXLog] with the token otherwise. *)
Theorem goSqlite3ConfigLog_registers_or_unregisters (udp : ptr) (e : engine) :
  goSqlite3ConfigLog udp e
  = sqlite3_config SQLITE_CONFIG_LOG
      [CfgFn (if bool_decide (udp = NULL) then None else Some goXLog);
       CfgPtr (if bool_decide (udp = NULL) then NULL else udp)] e
  ∧ goSqlite3ConfigLog udp e
    = if initialized e then (SQLITE_MISUSE, e)
      else (SQLITE_OK,
            if bool_decide (udp = NULL) then set_log None NULL e
            else set_log (Some goXLog) udp e).
Proof.
  split; [apply goSqlite3ConfigLog_call|].
  rewrite goSqlite3ConfigLog_call, sqlite3_config_log.
  destruct (initialized e); [done|]. by case_bool_decide.
Qed.

(** After an accepted [goSqlite3ConfigLog] the engine logs through [goXLog]
    with the token, and not at all after the null token. *)
Lemma fire_log_after_config udp e err msg :
  initialized e = false →
  fire_log (snd (goSqlite3ConfigLog udp e)) err msg
  = if bool_decide (udp = NULL) then None else Some (goXLog, udp, err, msg).
Proof.
  intros Hi. rewrite goSqlite3ConfigLog_call, sqlite3_config_log, Hi.
  by case_bool_decide.
Qed.

(** ** Frame: what a call leaves alone *)

Lemma forallb_cons_true {A} (f : A → bool) x l :
  forallb f (x :: l) = true → f x = true ∧ forallb f l = true.
Proof. simpl. intros H. by apply andb_prop in H. Qed.

Lemma exec_keeps_hook e c db h :
  keeps_hook db h c = true → hooks (exec e c) !! (db, h) = hooks e !! (db, h).
Proof.
  unfold keeps_hook. intros Hk.
  apply andb_prop in Hk as [Hk Hd]. apply andb_prop in Hk as [Hc Hw].
  apply negb_true_iff, bool_decide_eq_false in Hw.
  apply negb_true_iff, bool_decide_eq_false in Hd.
  assert (Hi : ∀ db' h' fn udp, (db', h') ≠ (db, h) →
            hooks (snd (install db' h' fn udp e)) !! (db, h) = hooks e !! (db, h)).
  { intros. by apply install_other. }
  assert (Ht : ∀ db' h' h'' fn udp, (db', h') ≠ (db, h) → (db', h'') ≠ (db, h) →
            hooks (take_off db' h'' (snd (install db' h' fn udp e))) !! (db, h)
            = hooks e !! (db, h)).
  { intros. rewrite take_off_other by done. by apply install_other. }
  destruct c; simpl in *;
    try (apply Hi; congruence);
    try (apply Ht; congruence);
    try reflexivity.
  - unfold goSqlite3ConfigLog. destruct (negb _); unfold sqlite3_config;
      destruct (initialized e); reflexivity.
  - unfold goSqlite3ConfigThreadMode, sqlite3_config.
    destruct (initialized e); [done|]. by destruct (mode =? _).
  - unfold goSqlite3Config, sqlite3_config.
    destruct (initialized e); [done|]. by destruct (op =? _).
  - unfold goSqlite3CreateScalarFunction, sqlite3_create_function_v2.
    by destruct (is_open e db0).
  - unfold goSqlite3CreateAggregateFunction, sqlite3_create_function_v2.
    by destruct (is_open e db0).
  - apply negb_true_iff, bool_decide_eq_false in Hc.
    unfold sqlite3_close. destruct (is_open e db0); [|done]. simpl.
    destruct (hooks e !! (db, h)) as [s|] eqn:Hs.
    + apply map_lookup_filter_Some. split; [done|].
      unfold hook_of_conn. simpl. congruence.
    + apply map_lookup_filter_None. left. done.
Qed.

Lemma exec_all_keeps_hook later e db h :
  forallb (keeps_hook db h) later = true →
  hooks (exec_all e later) !! (db, h) = hooks e !! (db, h).
Proof.
  revert e. induction later as [|c later IH]; intros e Hk; [done|].
  apply forallb_cons_true in Hk as [Hc Hl].
  unfold exec_all in *. simpl. rewrite IH by done. by apply exec_keeps_hook.
Qed.

Lemma exec_keeps_log e c :
  keeps_log c = true →
  log_fn (exec e c) = log_fn e ∧ log_arg (exec e c) = log_arg e.
Proof.
  assert (Hi : ∀ db h fn udp,
            log_fn (snd (install db h fn udp e)) = log_fn e
            ∧ log_arg (snd (install db h fn udp e)) = log_arg e).
  { intros. unfold install. by destruct (is_open e db), fn. }
  assert (Ht : ∀ db h h' fn udp,
            log_fn (take_off db h' (snd (install db h fn udp e))) = log_fn e
            ∧ log_arg (take_off db h' (snd (install db h fn udp e))) = log_arg e).
  { intros db h h' fn udp.
    destruct (take_off_frame db h' (snd (install db h fn udp e))) as (_ & _ & _ & -> & ->).
    apply Hi. }
  destruct c; simpl; intros Hk; try discriminate; try apply Hi; try apply Ht; try done.
  - unfold goSqlite3CreateScalarFunction, sqlite3_create_function_v2.
    by destruct (is_open e db).
  - unfold goSqlite3CreateAggregateFunction, sqlite3_create_function_v2.
    by destruct (is_open e db).
  - unfold sqlite3_close. by destruct (is_open e db).
Qed.

Lemma exec_all_keeps_log later e :
  forallb keeps_log later = true →
  log_fn (exec_all e later) = log_fn e ∧ log_arg (exec_all e later) = log_arg e.
Proof.
  revert e. induction later as [|c later IH]; intros e Hk; [done|].
  apply forallb_cons_true in Hk as [Hc Hl].
  unfold exec_all in *. simpl.
  destruct (IH (exec e c) Hl) as [-> ->]. by apply exec_keeps_log.
Qed.

Lemma exec_keeps_func e c key :
  keeps_func key c = true → funcs (exec e c) !! key = funcs e !! key.
Proof.
  unfold keeps_func. intros Hk. apply andb_prop in Hk as [Hc Hw].
  assert (Hi : ∀ db h fn udp,
            funcs (snd (install db h fn udp e)) !! key = funcs e !! key).
  { intros. unfold install. by destruct (is_open e db), fn. }
  assert (Ht : ∀ db h h' fn udp,
            funcs (take_off db h' (snd (install db h fn udp e))) !! key = funcs e !! key).
  { intros db h h' fn udp.
    destruct (take_off_frame db h' (snd (install db h fn udp e))) as (_ & -> & _).
    apply Hi. }
  assert (Hf : ∀ db name nArg enc pApp xf xs xfin xd,
            (db, name, nArg) ≠ key →
            funcs (snd (sqlite3_create_function_v2 db name nArg enc pApp xf xs xfin xd e)) !! key
            = funcs e !! key).
  { intros db name nArg enc pApp xf xs xfin xd Hne.
    unfold sqlite3_create_function_v2. destruct (is_open e db); [|done].
    destruct xf, xs, xfin; simpl;
      by rewrite ?lookup_insert_ne, ?lookup_delete_ne. }
  destruct c; simpl in *; try apply Hi; try apply Ht; try reflexivity.
  - unfold goSqlite3ConfigLog. destruct (negb _); unfold sqlite3_config;
      destruct (initialized e); reflexivity.
  - unfold goSqlite3ConfigThreadMode, sqlite3_config.
    destruct (initialized e); [done|]. by destruct (mode =? _).
  - unfold goSqlite3Config, sqlite3_config.
    destruct (initialized e); [done|]. by destruct (op =? _).
  - apply Hf. by apply negb_true_iff, bool_decide_eq_false in Hw.
  - apply Hf. by apply negb_true_iff, bool_decide_eq_false in Hw.
  - apply negb_true_iff, bool_decide_eq_false in Hc.
    unfold sqlite3_close. destruct (is_open e db); [|done]. simpl.
    destruct (funcs e !! key) as [s|] eqn:Hs.
    + apply map_lookup_filter_Some. split; [done|].
      unfold of_conn. simpl. congruence.
    + apply map_lookup_filter_None. left. done.
Qed.

Lemma exec_all_keeps_func later e key :
  forallb (keeps_func key) later = true →
  funcs (exec_all e later) !! key = funcs e !! key.
Proof.
  revert e. induction later as [|c later IH]; intros e Hk; [done|].
  apply forallb_cons_true in Hk as [Hc Hl].
  unfold exec_all in *. simpl. rewrite IH by done. by apply exec_keeps_func.
Qed.

Lemma forallb_impl {A} (f g : A → bool) l :
  (∀ x, f x = true → g x = true) → forallb f l = true → forallb g l = true.
Proof.
  intros Hfg. induction l as [|x l IH]; [done|].
  simpl. intros [Hx Hl]%andb_prop. rewrite (Hfg x Hx). by apply IH.
Qed.

(** The calls that leave the functions of a name alone leave its slot in the
    model alone, whatever the arity. *)
Lemma leaves_function_keeps db name nArg c :
  leaves_function db name c = true → keeps_func (db, name, nArg) c = true.
Proof.
  unfold leaves_function, keeps_func, names_function. simpl.
  intros [Hc Hn]%andb_prop. rewrite Hc. simpl.
  destruct (func_written c) as [[[[db' name'] nArg'] p']|]; [|done].
  apply negb_true_iff, bool_decide_eq_false in Hn.
  apply negb_true_iff, bool_decide_eq_false. intros [= -> -> ->]. by apply Hn.
Qed.

Lemma exec_all_leaves_function later e db name nArg :
  forallb (leaves_function db name) later = true →
  funcs (exec_all e later) !! (db, name, nArg) = funcs e !! (db, name, nArg).
Proof.
  intros Hl. apply exec_all_keeps_func. revert Hl.
  apply forallb_impl. intros c. apply leaves_function_keeps.
Qed.

(** ** Tokens through registration and invocation *)

Lemma exec_bind_hook_slot e h db numOps udp :
  is_open e db = true → (h = ProgressHandler → 0 < numOps) →
  hooks (exec e (bind_hook h db numOps udp)) !! (db, h) = Some (Slot (trampoline h) udp).
Proof.
  intros Ho Hn.
  assert (Ht : ∀ h h' f, h' ≠ h →
            hooks (take_off db h' (snd (install db h (Some f) udp e))) !! (db, h)
            = Some (Slot f udp)).
  { intros h1 h2 f Hne. rewrite take_off_other by congruence. by apply install_slot. }
  destruct h; simpl; try (by apply install_slot); try (by apply Ht).
  unfold goSqlite3ProgressHandler, sqlite3_progress_handler, discard. simpl.
  destruct (Z.ltb_spec 0 numOps); [|specialize (Hn eq_refl); lia].
  by apply install_slot.
Qed.

Lemma create_function_slot db name nArg enc pApp xf xs xfin xd e :
  is_open e db = true →
  (xf, xs, xfin) ≠ (None, None, None) →
  funcs (snd (sqlite3_create_function_v2 db name nArg enc pApp xf xs xfin xd e))
    !! (db, name, nArg)
  = Some (FuncSlot enc pApp xf xs xfin xd).
Proof.
  intros Ho Hne. unfold sqlite3_create_function_v2. rewrite Ho.
  destruct xf, xs, xfin; simpl; try apply lookup_insert_eq. done.
Qed.

Lemma run_steps_cXStep {M} (goXFunc : sqlite3_context → ptr → ptr → Z → list sqlite3_value → @cgo M call_state)
    goXStep rows udf st m :
  run_steps goXFunc goXStep cXStep_ptr (Context udf st) rows m
  = cbind (steps_with goXStep udf st rows) (λ st', cret (Context udf st')) m.
Proof.
  revert st m. induction rows as [|argv rows IH]; intros st m; [done|].
  simpl. unfold cbind, cXStep. simpl.
  destruct (goXStep _ _ _ _ m) as [[st' m']|]; [|done].
  rewrite IH. reflexivity.
Qed.

(** C3: the token given at registration is the one every later invocation
    carries.  For each of the eight hooks, after the glue call that binds it
    on an open connection, and after any further calls that neither rebind
    that hook, nor displace it (binding the profile callback takes the trace
    callback off and the other way round), nor close the connection, the
    engine fires the hook by calling the export registered for it with
    exactly that token, and the export behind the pointer is run on it.  The
    same holds for the log sink with a non-null token, and for functions: for
    a function the engine accepts, registered under a name the connection
    does not use otherwise (names compared without regard to case), before or
    afterwards, the scalar trampoline hands the application data to
    [goXFunc], the aggregate ones to every [goXStep] and to [goXFinal]. *)
Theorem token_delivered_unmodified :
  (∀ (e : engine) (db : sqlite3) (numOps : Z) (udp : ptr) (later : list call) (ev : event),
     is_open e db = true →
     (hook_of ev = ProgressHandler → 0 < numOps) →
     forallb (keeps_hook db (hook_of ev)) later = true →
     let e' := exec_all (exec e (bind_hook (hook_of ev) db numOps udp)) later in
     fire e' db ev = Some (Callback (trampoline (hook_of ev)) udp ev)
     ∧ ∀ (M : Type) (go_export : fnptr → ptr → event → @cgo M Z) (m : M),
         dispatch go_export e' db ev m
         = cbind (go_export (trampoline (hook_of ev)) udp ev) (λ r, cret (Some r)) m)
  ∧ (∀ (e : engine) (udp : ptr) (later : list call) (err : Z) (msg : string),
       initialized e = false → udp ≠ NULL →
       forallb keeps_log later = true →
       fire_log (exec_all (exec e (CallConfigLog udp)) later) err msg
       = Some (goXLog, udp, err, msg))
  ∧ (∀ (M : Type) goXFunc goXStep (e : engine) (db : sqlite3) (name : string) (enc : Z)
       (pApp : ptr) (later : list call) (argv : list sqlite3_value) (m : M),
       let n := Z.of_nat (length argv) in
       is_open e db = true →
       registrable name n = true →
       unnamed db name e →
       forallb (leaves_function db name) later = true →
       eval_scalar goXFunc goXStep
         (exec_all (exec e (CallCreateScalarFunction db name n enc pApp)) later) db name argv m
       = cbind (goXFunc (new_context pApp) pApp NULL n argv) (λ st, cret (cs_result st)) m)
  ∧ (∀ (M : Type) goXFunc goXStep goXFinal (e : engine) (db : sqlite3) (name : string)
       (nArg enc : Z) (pApp : ptr) (later : list call) (rows : list (list sqlite3_value))
       (m : M),
       is_open e db = true →
       registrable name nArg = true →
       unnamed db name e →
       forallb (leaves_function db name) later = true →
       eval_aggregate goXFunc goXStep goXFinal
         (exec_all (exec e (CallCreateAggregateFunction db name nArg enc pApp)) later)
         db name nArg rows m
       = aggregate_with goXStep goXFinal pApp rows m).
Proof.
  split; [|split; [|split]].
  - intros e db numOps udp later ev Ho Hn Hk e'.
    assert (Hf : fire e' db ev = Some (Callback (trampoline (hook_of ev)) udp ev)).
    { unfold fire, e'. rewrite exec_all_keeps_hook by done.
      by rewrite exec_bind_hook_slot. }
    split; [done|]. intros M go_export m. unfold dispatch. by rewrite Hf.
  - intros e udp later err msg Hi Hn Hk. unfold fire_log.
    destruct (exec_all_keeps_log later (exec e (CallConfigLog udp)) Hk) as [-> ->].
    simpl. rewrite goSqlite3ConfigLog_call, sqlite3_config_log, Hi. simpl.
    by rewrite !bool_decide_eq_false_2.
  - intros M goXFunc goXStep e db name enc pApp later argv m n Ho _ _ Hk.
    unfold eval_scalar. fold n. rewrite exec_all_leaves_function by done. simpl.
    unfold goSqlite3CreateScalarFunction. rewrite create_function_slot by done.
    reflexivity.
  - intros M goXFunc goXStep goXFinal e db name nArg enc pApp later rows m Ho _ _ Hk.
    unfold eval_aggregate. rewrite exec_all_leaves_function by done. simpl.
    unfold goSqlite3CreateAggregateFunction. rewrite create_function_slot by done.
    simpl. unfold aggregate_with, new_context. simpl.
    unfold cbind at 1. rewrite run_steps_cXStep.
    unfold cbind.
    destruct (steps_with goXStep pApp _ rows m) as [[st m']|]; [|done].
    reflexivity.
Qed.

(** An instance: a trace callback bound with the token 42 is fired with it
    after an update hook and another function have been registered; and the
    aggregate "total", registered with the token 7, is run on it after a
    scalar function of another name has been registered. *)
Lemma token_delivered_unmodified_witness :
  let e := snd (sqlite3_open 1 fresh_engine) in
  let ev := EvTrace "select 1" in
  let later := [CallUpdateHook 1 5; CallCreateScalarFunction 1 "g" 1 1 6] in
  let sum : sqlite3_context → ptr → Z → list sqlite3_value → @cgo unit call_state :=
    λ ctx udf _ argv m,
      Returned (ctx_state (sqlite3_result_int64 ctx
                  (match cs_result (ctx_state ctx), argv with
                   | Some (SqlInt a), [SqlInt n] => a + n
                   | None, [SqlInt n] => udf + n
                   | _, _ => 0
                   end)), m) in
  let final : sqlite3_context → ptr → @cgo unit call_state :=
    λ ctx _ m, Returned (ctx_state ctx, m) in
  fire (exec_all (exec e (CallTrace 1 42)) later) 1 ev = Some (Callback goXTrace 42 ev)
  ∧ eval_aggregate (λ ctx _ _ _ _ m, Returned (ctx_state ctx, m)) sum final
      (exec_all (exec e (CallCreateAggregateFunction 1 "total" 1 1 7)) later)
      1 "total" 1 [[SqlInt 10]; [SqlInt 20]] tt
    = Returned (Some (SqlInt 37), tt).
Proof.
  intros e ev later sum final. split.
  - refine (proj1 (proj1 token_delivered_unmodified e 1 0 42 later ev _ _ _));
      try (vm_compute; reflexivity).
    simpl. discriminate.
  - refine (eq_trans
              (proj2 (proj2 (proj2 token_delivered_unmodified)) unit
                 (λ ctx _ _ _ _ m, Returned (ctx_state ctx, m)) sum final
                 e 1 "total" 1 1 7 later [[SqlInt 10]; [SqlInt 20]] tt _ _ _ _) _);
      try (vm_compute; reflexivity).
    intros name' nArg fs Hk. vm_compute in Hk. discriminate.
Defined.

(** ** The scalar-function trampoline *)

Lemma eval_scalar_registered {M} goXFunc goXStep e db name enc pApp argv (m : M) :
  is_open e db = true →
  eval_scalar goXFunc goXStep
    (snd (goSqlite3CreateScalarFunction db name (Z.of_nat (length argv)) enc pApp e))
    db name argv m
  = cbind (goXFunc (new_context pApp) pApp NULL (Z.of_nat (length argv)) argv)
          (λ st, cret (cs_result st)) m.
Proof.
  intros Ho. unfold eval_scalar, goSqlite3CreateScalarFunction.
  rewrite create_function_slot by done. reflexivity.
Qed.

(** C2: a scalar function registered through the glue and called by the
    engine on two integer arguments.  Whatever the export behind the
    trampoline is, it is called with the argument count 2 and the two value
    handles as the engine gave them; and when the managed side has written
    the closure's number [r] through the value setter, [r] is the result the
    engine reads back. *)
Theorem scalar_trampoline_passes_arguments_and_result
    (M : Type)
    (goXFunc : sqlite3_context → ptr → ptr → Z → list sqlite3_value → @cgo M call_state)
    (goXStep : sqlite3_context → ptr → Z → list sqlite3_value → @cgo M call_state)
    (e : engine) (db : sqlite3) (name : string) (enc : Z) (pApp : ptr) (a b : Z) (m : M) :
  is_open e db = true →
  let e' := snd (goSqlite3CreateScalarFunction db name 2 enc pApp e) in
  let ctx := new_context pApp in
  eval_scalar goXFunc goXStep e' db name [SqlInt a; SqlInt b] m
  = cbind (goXFunc ctx pApp NULL 2 [SqlInt a; SqlInt b]) (λ st, cret (cs_result st)) m
  ∧ ∀ (r : Z) (m' : M),
      goXFunc ctx pApp NULL 2 [SqlInt a; SqlInt b] m
      = Returned (ctx_state (sqlite3_result_int64 ctx r), m') →
      eval_scalar goXFunc goXStep e' db name [SqlInt a; SqlInt b] m
      = Returned (Some (SqlInt r), m').
Proof.
  intros Ho e' ctx.
  pose proof (eval_scalar_registered goXFunc goXStep e db name enc pApp
                [SqlInt a; SqlInt b] m Ho) as He.
  change (Z.of_nat (length [SqlInt a; SqlInt b])) with 2 in He.
  split; [exact He|].
  intros r m' Hr. unfold e'. rewrite He. unfold cbind. fold ctx. by rewrite Hr.
Qed.

(** An instance: the closure sums its integer arguments, 2 and 3. *)
Lemma scalar_trampoline_passes_arguments_and_result_witness :
  let add : Z → list sqlite3_value → Z :=
    λ _ argv, foldr (λ v acc, match v with SqlInt n => n + acc | _ => acc end) 0 argv in
  let goXFunc : sqlite3_context → ptr → ptr → Z → list sqlite3_value → @cgo unit call_state :=
    λ ctx _ _ argc argv m, Returned (ctx_state (sqlite3_result_int64 ctx (add argc argv)), m) in
  let e := snd (sqlite3_open 1 fresh_engine) in
  eval_scalar goXFunc (λ ctx _ _ _ m, Returned (ctx_state ctx, m))
    (snd (goSqlite3CreateScalarFunction 1 "add" 2 1 7 e)) 1 "add" [SqlInt 2; SqlInt 3] tt
  = Returned (Some (SqlInt 5), tt).
Proof.
  intros add goXFunc e.
  refine (proj2 (scalar_trampoline_passes_arguments_and_result unit goXFunc _
                   e 1 "add" 1 7 2 3 tt _) 5 tt _);
    vm_compute; reflexivity.
Defined.

(** ** Abnormal termination of the managed side *)

Lemma dispatch_bound {M} (go_export : fnptr → ptr → event → @cgo M Z)
    e h db numOps udp ev (m : M) :
  is_open e db = true → (h = ProgressHandler → 0 < numOps) → hook_of ev = h →
  dispatch go_export (exec e (bind_hook h db numOps udp)) db ev m
  = match go_export (trampoline h) udp ev m with
    | Returned (r, m') => Returned (Some r, m')
    | Unwound => Unwound
    end.
Proof.
  intros Ho Hn <-. unfold dispatch, fire.
  rewrite exec_bind_hook_slot by done. simpl. unfold cbind.
  by destruct (go_export _ _ _ m) as [[r m']|].
Qed.

(** C1, as the code has it: the C layer converts nothing.  [cXFunc],
    [cXStep] and [cXFinal] are the call of the export and nothing else, so
    the engine's call of a registered scalar function ends abnormally exactly
    when the export does; and for a hook (the authorizer, the busy handler
    and the progress handler among them) the engine calls the export itself:
    it gets the export's return code when the export returns and its abnormal
    termination when it does not. *)
Theorem trampolines_forward_outcome
    (M : Type)
    (goXFunc : sqlite3_context → ptr → ptr → Z → list sqlite3_value → @cgo M call_state)
    (goXStep : sqlite3_context → ptr → Z → list sqlite3_value → @cgo M call_state)
    (goXFinal : sqlite3_context → ptr → @cgo M call_state)
    (go_export : fnptr → ptr → event → @cgo M Z) :
  (∀ ctx argc argv m,
     cXFunc goXFunc ctx argc argv m
     = goXFunc ctx (sqlite3_user_data ctx) (sqlite3_get_auxdata ctx 0) argc argv m)
  ∧ (∀ ctx argc argv m,
       cXStep goXStep ctx argc argv m = goXStep ctx (sqlite3_user_data ctx) argc argv m)
  ∧ (∀ ctx m, cXFinal goXFinal ctx m = goXFinal ctx (sqlite3_user_data ctx) m)
  ∧ (∀ e db name enc pApp argv m,
       is_open e db = true →
       let n := Z.of_nat (length argv) in
       eval_scalar goXFunc goXStep
         (snd (goSqlite3CreateScalarFunction db name n enc pApp e)) db name argv m = Unwound
       ↔ goXFunc (new_context pApp) pApp NULL n argv m = Unwound)
  ∧ (∀ e db numOps udp ev m,
       is_open e db = true →
       (hook_of ev = ProgressHandler → 0 < numOps) →
       dispatch go_export (exec e (bind_hook (hook_of ev) db numOps udp)) db ev m
       = match go_export (trampoline (hook_of ev)) udp ev m with
         | Returned (r, m') => Returned (Some r, m')
         | Unwound => Unwound
         end).
Proof.
  split; [reflexivity|]. split; [reflexivity|]. split; [reflexivity|]. split.
  - intros e db name enc pApp argv m Ho n. unfold n.
    rewrite eval_scalar_registered by done. unfold cbind.
    by destruct (goXFunc _ _ _ _ _ m) as [[st m']|].
  - intros. by apply dispatch_bound.
Qed.

Lemma trampolines_forward_outcome_witness :
  let deny : fnptr → ptr → event → @cgo unit Z := λ _ _ _ m, Returned (1, m) in
  let e := snd (sqlite3_open 1 fresh_engine) in
  let ev := EvAuth 21 (Some "t") None (Some "main") None in
  dispatch deny (exec e (CallSetAuthorizer 1 7)) 1 ev tt = Returned (Some 1, tt).
Proof.
  intros deny e ev.
  pose (idle := λ (ctx : sqlite3_context) (_ : ptr) (m : unit), Returned (ctx_state ctx, m)).
  refine (proj2 (proj2 (proj2 (proj2
            (trampolines_forward_outcome unit
               (λ ctx _ _ _ _ m, Returned (ctx_state ctx, m))
               (λ ctx _ _ _ m, Returned (ctx_state ctx, m)) idle deny))))
            e 1 0 7 ev tt _ _).
  - vm_compute; reflexivity.
  - simpl. discriminate.
Defined.

(** C1, the claim as stated fails: a scalar function and an authorizer are
    registered through the glue, the managed code behind them terminates
    abnormally, and the engine's call does not return a failure code: the
    abnormal termination comes through the trampoline into the engine. *)
Lemma trampolines_do_not_catch :
  let failing_func : sqlite3_context → ptr → ptr → Z → list sqlite3_value → @cgo unit call_state :=
    λ _ _ _ _ _ _, Unwound in
  let failing_export : fnptr → ptr → event → @cgo unit Z := λ _ _ _ _, Unwound in
  let e := snd (sqlite3_open 1 fresh_engine) in
  eval_scalar failing_func (λ ctx _ _ _ m, Returned (ctx_state ctx, m))
    (snd (goSqlite3CreateScalarFunction 1 "f" 2 1 7 e)) 1 "f" [SqlInt 2; SqlInt 3] tt
  = Unwound
  ∧ dispatch failing_export (snd (goSqlite3SetAuthorizer 1 7 e)) 1
      (EvAuth 21 (Some "t") None (Some "main") None) tt
    = Unwound.
Proof. split; vm_compute; reflexivity. Qed.

(** ** Destructor callbacks *)

Lemma count_calls_app c l1 l2 :
  count_calls c (l1 ++ l2) = (count_calls c l1 + count_calls c l2)%nat.
Proof. unfold count_calls. by rewrite filter_app, length_app. Qed.

Lemma count_calls_absent c l : (∀ x, x ∈ l → x ≠ c) → count_calls c l = 0%nat.
Proof.
  intros Hl. unfold count_calls.
  induction l as [|x l IH]; [done|].
  rewrite filter_cons_False.
  - apply IH. intros y Hy. apply Hl. by right.
  - apply Hl. by left.
Qed.

Lemma count_calls_perm c l1 l2 : l1 ≡ₚ l2 → count_calls c l1 = count_calls c l2.
Proof. intros Hp. unfold count_calls. by rewrite Hp. Qed.

Lemma owed_elem x fs : x ∈ owed (Some fs) → x.2 = fn_pApp fs.
Proof.
  unfold owed. destruct (fn_xDestroy fs); [|by intros ?%elem_of_nil].
  by intros ->%list_elem_of_singleton.
Qed.

Lemma close_calls_elem x db f :
  x ∈ close_calls db f → ∃ k fs, f !! k = Some fs ∧ k.1.1 = db ∧ x.2 = fn_pApp fs.
Proof.
  unfold close_calls. intros ([k fs] & Hx & Hk)%list_elem_of_bind.
  apply elem_of_map_to_list, map_lookup_filter_Some in Hk as [Hk Hdb].
  exists k, fs. split; [done|]. split; [done|]. by apply owed_elem.
Qed.

Lemma close_calls_absent d p db f :
  (∀ k fs, f !! k = Some fs → k.1.1 = db → fn_pApp fs ≠ p) →
  count_calls (d, p) (close_calls db f) = 0%nat.
Proof.
  intros Hf. apply count_calls_absent.
  intros x (k & fs & Hk & Hdb & Hx)%close_calls_elem ->.
  by eapply Hf.
Qed.

Lemma close_calls_empty db f :
  (∀ k fs, f !! k = Some fs → k.1.1 ≠ db) → close_calls db f = [].
Proof.
  intros Hf. unfold close_calls.
  replace (filter (of_conn db) f) with (∅ : gmap (Z * string * Z) func_slot).
  - by rewrite map_to_list_empty.
  - symmetry. apply map_empty_filter. intros k fs Hk Hdb. by eapply Hf.
Qed.

Lemma close_calls_insert db f key fs :
  key.1.1 = db → f !! key = None →
  close_calls db (<[key := fs]> f) ≡ₚ owed (Some fs) ++ close_calls db f.
Proof.
  intros Hdb Hk. unfold close_calls.
  rewrite map_filter_insert_True by done.
  rewrite map_to_list_insert by (by rewrite map_lookup_filter_None; left).
  reflexivity.
Qed.

Lemma close_calls_once p db f key fs :
  f !! key = Some fs → key.1.1 = db →
  fn_pApp fs = p → fn_xDestroy fs = Some goXDestroy →
  (∀ k fs', f !! k = Some fs' → fn_pApp fs' = p → k = key) →
  count_calls (goXDestroy, p) (close_calls db f) = 1%nat.
Proof.
  intros Hk Hdb Hp Hd Huniq.
  rewrite <- (insert_delete_id f key fs Hk).
  rewrite (count_calls_perm _ _ _ (close_calls_insert db _ key fs Hdb (lookup_delete_eq _ _))).
  rewrite count_calls_app, close_calls_absent.
  - unfold owed. rewrite Hd, Hp. unfold count_calls.
    rewrite filter_cons_True by done. reflexivity.
  - intros k fs' Hk' _ Hp'.
    apply lookup_delete_Some in Hk' as [Hne Hk'].
    apply Hne. symmetry. by eapply Huniq.
Qed.

(** What a call does to the function slots and to the trace of destructor
    callbacks: nothing, unless it registers a function or closes a
    connection. *)
Lemma exec_inert e c :
  func_written c = None → (∀ db, c ≠ CallClose db) →
  funcs (exec e c) = funcs e ∧ destroyed (exec e c) = destroyed e.
Proof.
  intros Hw Hc.
  assert (Hi : ∀ db h fn udp,
            funcs (snd (install db h fn udp e)) = funcs e
            ∧ destroyed (snd (install db h fn udp e)) = destroyed e).
  { intros. unfold install. by destruct (is_open e db), fn. }
  assert (Ht : ∀ db h h' fn udp,
            funcs (take_off db h' (snd (install db h fn udp e))) = funcs e
            ∧ destroyed (take_off db h' (snd (install db h fn udp e))) = destroyed e).
  { intros db h h' fn udp.
    destruct (take_off_frame db h' (snd (install db h fn udp e))) as (_ & -> & -> & _).
    apply Hi. }
  destruct c; simpl in *; try discriminate; try apply Hi; try apply Ht; try done.
  - unfold goSqlite3ConfigLog. destruct (negb _); unfold sqlite3_config;
      by destruct (initialized e).
  - unfold goSqlite3ConfigThreadMode, sqlite3_config.
    destruct (initialized e); [done|]. by destruct (mode =? _).
  - unfold goSqlite3Config, sqlite3_config.
    destruct (initialized e); [done|]. by destruct (op =? _).
  - by destruct (Hc db).
Qed.

Lemma exec_create e c key p :
  func_written c = Some (key, p) →
  ∃ fs, fn_pApp fs = p ∧ fn_xDestroy fs = Some goXDestroy
        ∧ exec e c
          = if is_open e key.1.1
            then set_funcs (<[key := fs]> (funcs e)) (destroyed e ++ owed (funcs e !! key)) e
            else e.
Proof.
  destruct c; simpl; try discriminate; intros [= <- <-]; simpl.
  - eexists (FuncSlot eTextRep pApp (Some cXFunc_ptr) None None (Some goXDestroy)).
    split; [done|]. split; [done|].
    unfold goSqlite3CreateScalarFunction, sqlite3_create_function_v2.
    by destruct (is_open e db).
  - eexists (FuncSlot eTextRep pApp None (Some cXStep_ptr) (Some cXFinal_ptr) (Some goXDestroy)).
    split; [done|]. split; [done|].
    unfold goSqlite3CreateAggregateFunction, sqlite3_create_function_v2.
    by destruct (is_open e db).
Qed.

Lemma exec_keeps_open e c db :
  closes db c = false → is_open e db = true → is_open (exec e c) db = true.
Proof.
  intros Hc Ho.
  assert (Hi : ∀ db' h fn udp, is_open (snd (install db' h fn udp e)) db = true).
  { intros. by rewrite install_keeps_open. }
  assert (Ht : ∀ db' h h' fn udp,
            is_open (take_off db' h' (snd (install db' h fn udp e))) db = true).
  { intros. by rewrite take_off_keeps_open. }
  destruct c; simpl in *; try apply Hi; try apply Ht.
  - unfold goSqlite3ConfigLog. destruct (negb _); unfold sqlite3_config;
      by destruct (initialized e).
  - unfold goSqlite3ConfigThreadMode, sqlite3_config.
    destruct (initialized e); [done|]. by destruct (mode =? _).
  - unfold goSqlite3Config, sqlite3_config.
    destruct (initialized e); [done|]. by destruct (op =? _).
  - unfold goSqlite3CreateScalarFunction, sqlite3_create_function_v2.
    by destruct (is_open e db0).
  - unfold goSqlite3CreateAggregateFunction, sqlite3_create_function_v2.
    by destruct (is_open e db0).
  - unfold is_open in *. simpl. apply bool_decide_eq_true in Ho.
    apply bool_decide_eq_true. set_solver.
  - apply bool_decide_eq_false in Hc.
    unfold sqlite3_close. destruct (is_open e db0) eqn:Ho0; [|done].
    unfold is_open in *. simpl. apply bool_decide_eq_true in Ho.
    apply bool_decide_eq_true. set_solver.
Qed.

Lemma close_or_not c : (∃ db, c = CallClose db) ∨ (∀ db, c ≠ CallClose db).
Proof. destruct c; try (right; discriminate). left. by eexists. Qed.

(** A token no slot holds: no call that does not store it makes the engine
    call its destructor. *)
Lemma exec_unheld p e c :
  unheld p e → stores_token p c = false →
  unheld p (exec e c) ∧ delivered goXDestroy p (exec e c) = delivered goXDestroy p e.
Proof.
  intros Hu Hs. unfold delivered.
  destruct (func_written c) as [[key p']|] eqn:Hw.
  - unfold stores_token in Hs. rewrite Hw in Hs.
    apply bool_decide_eq_false in Hs.
    destruct (exec_create e c key p' Hw) as (fs & Hp & _ & ->).
    destruct (is_open e key.1.1); [|done]. simpl. split.
    + intros k fs' Hk. simpl in Hk. destruct (decide (k = key)) as [->|Hne].
      * rewrite lookup_insert_eq in Hk. injection Hk as <-. congruence.
      * rewrite lookup_insert_ne in Hk by done. by eapply Hu.
    + rewrite count_calls_app, (count_calls_absent _ (owed _)); [lia|].
      intros x Hx ->. destruct (funcs e !! key) as [fs'|] eqn:Hk.
      * apply owed_elem in Hx. simpl in Hx. by eapply Hu.
      * by apply elem_of_nil in Hx.
  - destruct (close_or_not c) as [[db ->]|Hnc].
    + simpl. unfold sqlite3_close. destruct (is_open e db); [|done]. simpl. split.
      * intros k fs [Hk _]%map_lookup_filter_Some. by eapply Hu.
      * rewrite count_calls_app, close_calls_absent; [lia|].
        intros k fs Hk _. by eapply Hu.
    + destruct (exec_inert e c Hw Hnc) as [Hf Hd].
      rewrite Hd. split; [|done]. unfold unheld. by rewrite Hf.
Qed.

Lemma exec_all_unheld p later e :
  unheld p e → forallb (λ c, negb (stores_token p c)) later = true →
  unheld p (exec_all e later)
  ∧ delivered goXDestroy p (exec_all e later) = delivered goXDestroy p e.
Proof.
  revert e. induction later as [|c later IH]; intros e Hu Hk; [done|].
  apply forallb_cons_true in Hk as [Hc%negb_true_iff Hl].
  destruct (exec_unheld p e c Hu Hc) as [Hu' Hd'].
  destruct (IH (exec e c) Hu' Hl) as [Hu'' Hd''].
  unfold exec_all in *. simpl. split; [done|]. by rewrite Hd''.
Qed.

(** Registering a function under a token no slot holds: the token is then
    held by that slot alone, and no destructor has been called on it. *)
Lemma exec_register p e c key :
  func_written c = Some (key, p) → is_open e key.1.1 = true → unheld p e →
  held_at p key (exec e c)
  ∧ delivered goXDestroy p (exec e c) = delivered goXDestroy p e.
Proof.
  intros Hw Ho Hu. unfold delivered.
  destruct (exec_create e c key p Hw) as (fs & Hp & Hd & ->).
  rewrite Ho. simpl. split; [split; [done|split]|].
  - exists fs. simpl. by rewrite lookup_insert_eq.
  - intros k fs' Hk Hp'. simpl in Hk.
    destruct (decide (k = key)) as [->|Hne]; [done|].
    rewrite lookup_insert_ne in Hk by done. by destruct (Hu k fs' Hk).
  - rewrite count_calls_app, (count_calls_absent _ (owed _)); [lia|].
    intros x Hx ->. destruct (funcs e !! key) as [fs'|] eqn:Hk.
    + apply owed_elem in Hx. simpl in Hx. by eapply Hu.
    + by apply elem_of_nil in Hx.
Qed.

(** While the slot is left alone, the registration stays and its destructor
    is not called. *)
Lemma exec_held_kept p key e c :
  held_at p key e → stores_token p c = false → keeps_func key c = true →
  held_at p key (exec e c)
  ∧ delivered goXDestroy p (exec e c) = delivered goXDestroy p e.
Proof.
  intros (Ho & (fs & Hk & Hp & Hd) & Huniq) Hs Hkeep. unfold delivered.
  unfold keeps_func in Hkeep. apply andb_prop in Hkeep as [Hc Hw].
  apply negb_true_iff in Hc.
  destruct (func_written c) as [[key' p']|] eqn:Hfw.
  - apply negb_true_iff, bool_decide_eq_false in Hw.
    unfold stores_token in Hs. rewrite Hfw in Hs. apply bool_decide_eq_false in Hs.
    destruct (exec_create e c key' p' Hfw) as (fs' & Hp' & _ & ->).
    destruct (is_open e key'.1.1); [|by repeat split; eauto]. simpl.
    split; [split; [done|split]|].
    + exists fs. simpl. by rewrite lookup_insert_ne.
    + intros k fs'' Hk' Hp''. simpl in Hk'.
      destruct (decide (k = key')) as [->|Hne].
      * rewrite lookup_insert_eq in Hk'. injection Hk' as <-. congruence.
      * rewrite lookup_insert_ne in Hk' by done. by eapply Huniq.
    + rewrite count_calls_app, (count_calls_absent _ (owed _)); [lia|].
      intros x Hx ->. destruct (funcs e !! key') as [fs''|] eqn:Hk'.
      * apply owed_elem in Hx. simpl in Hx. apply Hw. by eapply Huniq.
      * by apply elem_of_nil in Hx.
  - destruct (close_or_not c) as [[db ->]|Hnc].
    + simpl in Hc. apply bool_decide_eq_false in Hc.
      pose proof (exec_keeps_open e (CallClose db) key.1.1) as Ho'.
      simpl in Ho'. rewrite bool_decide_eq_false_2 in Ho' by done.
      specialize (Ho' eq_refl Ho). revert Ho'.
      simpl. unfold sqlite3_close.
      destruct (is_open e db); [|by repeat split; eauto]. simpl. intros Ho'.
      split; [split; [done|split]|].
      * exists fs. split; [|done]. apply map_lookup_filter_Some. split; [done|].
        unfold of_conn. simpl. congruence.
      * intros k fs' [Hk' _]%map_lookup_filter_Some. by eapply Huniq.
      * rewrite count_calls_app, close_calls_absent; [lia|].
        intros k fs' Hk' Hdb Hp'. apply Hc. rewrite <- Hdb.
        by rewrite (Huniq k fs' Hk' Hp').
    + destruct (exec_inert e c Hfw Hnc) as [Hf Hde].
      rewrite Hde. split; [|done].
      split; [|rewrite Hf; by eauto].
      by apply exec_keeps_open.
Qed.

(** The call that replaces the slot or closes its connection makes the
    engine call the destructor on the token once, and no slot holds the
    token afterwards. *)
Lemma exec_held_ended p key e c :
  held_at p key e → stores_token p c = false → keeps_func key c = false →
  unheld p (exec e c)
  ∧ delivered goXDestroy p (exec e c) = S (delivered goXDestroy p e).
Proof.
  intros (Ho & (fs & Hk & Hp & Hd) & Huniq) Hs Hkeep. unfold delivered.
  unfold keeps_func in Hkeep. apply andb_false_iff in Hkeep as [Hc|Hw].
  - apply negb_false_iff in Hc. destruct c; try discriminate.
    simpl in Hc. apply bool_decide_eq_true in Hc. subst db.
    simpl. unfold sqlite3_close. rewrite Ho. simpl. split.
    + intros k fs' [Hk' Hdb]%map_lookup_filter_Some Hp'.
      apply Hdb. unfold of_conn. simpl. by rewrite (Huniq k fs' Hk' Hp').
    + rewrite count_calls_app, (close_calls_once p key.1.1 (funcs e) key fs) by done.
      lia.
  - destruct (func_written c) as [[key' p']|] eqn:Hfw; [|done].
    apply negb_false_iff, bool_decide_eq_true in Hw. subst key'.
    unfold stores_token in Hs. rewrite Hfw in Hs. apply bool_decide_eq_false in Hs.
    destruct (exec_create e c key p' Hfw) as (fs' & Hp' & _ & ->).
    rewrite Ho. simpl. split.
    + intros k fs'' Hk'. simpl in Hk'.
      destruct (decide (k = key)) as [->|Hne].
      * rewrite lookup_insert_eq in Hk'. injection Hk' as <-. congruence.
      * rewrite lookup_insert_ne in Hk' by done.
        intros Hp''. apply Hne. by eapply Huniq.
    + rewrite count_calls_app, Hk. unfold owed. rewrite Hd, Hp.
      unfold count_calls at 2. rewrite filter_cons_True by done. simpl. lia.
Qed.

Lemma exec_all_held_kept p key later e :
  held_at p key e →
  forallb (λ c, keeps_func key c && negb (stores_token p c)) later = true →
  held_at p key (exec_all e later)
  ∧ delivered goXDestroy p (exec_all e later) = delivered goXDestroy p e.
Proof.
  revert e. induction later as [|c later IH]; intros e Hh Hk; [done|].
  apply forallb_cons_true in Hk as [[Hc Hs%negb_true_iff]%andb_prop Hl].
  destruct (exec_held_kept p key e c Hh Hs Hc) as [Hh' Hd'].
  destruct (IH (exec e c) Hh' Hl) as [Hh'' Hd''].
  unfold exec_all in *. simpl. split; [done|]. by rewrite Hd''.
Qed.

Lemma exec_bind_hook_inert e h db numOps udp :
  funcs (exec e (bind_hook h db numOps udp)) = funcs e
  ∧ destroyed (exec e (bind_hook h db numOps udp)) = destroyed e.
Proof. apply exec_inert; by destruct h. Qed.

Lemma close_no_functions e db :
  no_functions db e → destroyed (exec e (CallClose db)) = destroyed e.
Proof.
  intros Hn. simpl. unfold sqlite3_close. destruct (is_open e db); [|done].
  simpl. rewrite close_calls_empty by done. apply app_nil_r.
Qed.

Lemma func_written_register aggregate db name nArg enc p :
  func_written (register_function aggregate db name nArg enc p) = Some (db, name, nArg, p).
Proof. by destruct aggregate. Qed.

(** A call that ends a function registration does not leave its slot in the
    model alone. *)
Lemma ends_function_ends db name nArg enc c :
  ends_function db name nArg enc c = true → keeps_func (db, name, nArg) c = false.
Proof.
  unfold keeps_func. destruct c; simpl; try discriminate.
  - intros (-> & -> & -> & _)%bool_decide_eq_true. by rewrite bool_decide_eq_true_2.
  - intros (-> & -> & -> & _)%bool_decide_eq_true. by rewrite bool_decide_eq_true_2.
  - intros ->. reflexivity.
Qed.

(** C5, as the code has it: of the registrations, only those of functions
    give the engine a destructor.  A scalar or aggregate function is
    registered through the glue on an open connection, with an arity and a
    name the engine accepts, under a token that no function slot holds, and
    no other registration call is given that token.  Then the engine does not
    call [goXDestroy] on the token at registration, nor during any calls that
    neither close the connection nor register a function on it under that
    name (names compared without regard to case); the call that then closes
    the connection, or registers a function on it again under the very same
    name, arity and text encoding, makes it call [goXDestroy] on the token
    once; and it never does again afterwards.  When the function is the only
    one of its connection, closing the connection makes exactly one
    destructor callback.  A hook registration hands no destructor over:
    binding a hook makes no destructor callback, and closing a connection
    that has hooks but no functions makes none either. *)
Theorem function_destructor_delivered_once :
  (∀ (e : engine) (aggregate : bool) (db : sqlite3) (name : string) (nArg enc : Z)
     (p : ptr) (live_calls : list call) (ending : call) (after : list call),
     let reg := register_function aggregate db name nArg enc p in
     is_open e db = true →
     registrable name nArg = true →
     unheld p e →
     forallb (λ c, leaves_function db name c && negb (stores_token p c)) live_calls = true →
     ends_function db name nArg enc ending = true → stores_token p ending = false →
     forallb (λ c, negb (stores_token p c)) after = true →
     let e1 := exec_all (exec e reg) live_calls in
     delivered goXDestroy p (exec e reg) = delivered goXDestroy p e
     ∧ delivered goXDestroy p e1 = delivered goXDestroy p e
     ∧ delivered goXDestroy p (exec e1 ending) = S (delivered goXDestroy p e)
     ∧ delivered goXDestroy p (exec_all (exec e1 ending) after)
       = S (delivered goXDestroy p e))
  ∧ (∀ (e : engine) (aggregate : bool) (db : sqlite3) (name : string) (nArg enc : Z)
       (p : ptr),
       is_open e db = true →
       registrable name nArg = true →
       no_functions db e →
       destroyed (exec (exec e (register_function aggregate db name nArg enc p))
                       (CallClose db))
       = destroyed e ++ [(goXDestroy, p)])
  ∧ (∀ (e : engine) (h : hook) (db : sqlite3) (numOps : Z) (udp : ptr),
       destroyed (exec e (bind_hook h db numOps udp)) = destroyed e
       ∧ (no_functions db e →
          destroyed (exec (exec e (bind_hook h db numOps udp)) (CallClose db))
          = destroyed e)).
Proof.
  split; [|split].
  - intros e aggregate db name nArg enc p live_calls ending after reg
      Ho _ Hu Hlive Hend Hs Hafter e1.
    pose proof (func_written_register aggregate db name nArg enc p) as Hw. fold reg in Hw.
    destruct (exec_register p e reg (db, name, nArg) Hw Ho Hu) as [Hh0 Hd0].
    assert (Hlive' : forallb (λ c, keeps_func (db, name, nArg) c && negb (stores_token p c))
                       live_calls = true).
    { revert Hlive. apply forallb_impl. intros c [Hl Hn]%andb_prop.
      by rewrite (leaves_function_keeps db name nArg c Hl). }
    destruct (exec_all_held_kept p (db, name, nArg) live_calls _ Hh0 Hlive') as [Hh1 Hd1].
    fold e1 in Hh1, Hd1.
    pose proof (ends_function_ends db name nArg enc ending Hend) as Hend'.
    destruct (exec_held_ended p (db, name, nArg) e1 ending Hh1 Hs Hend') as [Hu2 Hd2].
    destruct (exec_all_unheld p after _ Hu2 Hafter) as [_ Hd3].
    repeat split; congruence.
  - intros e aggregate db name nArg enc p Ho _ Hn.
    pose proof (func_written_register aggregate db name nArg enc p) as Hw.
    destruct (exec_create e _ (db, name, nArg) p Hw) as (fs & Hp & Hd & ->).
    simpl. rewrite Ho. simpl. unfold sqlite3_close.
    replace (is_open _ db) with true by (symmetry; exact Ho). simpl.
    assert (Hk : funcs e !! (db, name, nArg) = None).
    { destruct (funcs e !! (db, name, nArg)) as [fs'|] eqn:Hk; [|done].
      by destruct (Hn _ fs' Hk). }
    match goal with
    | |- context [owed ?t] => replace t with (@None func_slot) by (symmetry; exact Hk)
    end.
    simpl. rewrite app_nil_r. f_equal.
    apply Permutation_singleton_r.
    rewrite (close_calls_insert db (funcs e) (db, name, nArg) fs eq_refl Hk).
    rewrite (close_calls_empty db (funcs e)) by done.
    unfold owed. rewrite Hd, Hp. reflexivity.
  - intros e h db numOps udp.
    destruct (exec_bind_hook_inert e h db numOps udp) as [Hf Hd].
    split; [done|]. intros Hn. rewrite close_no_functions; [done|].
    unfold no_functions. by rewrite Hf.
Qed.

(** An instance: the scalar function "f" is registered with the token 7; an
    update hook and an aggregate of another name leave it alone; registering
    "f" again with the token 11 makes the engine destroy 7 once, and closing
    the connection afterwards does not destroy it again. *)
Lemma function_destructor_delivered_once_witness :
  let e := snd (sqlite3_open 1 fresh_engine) in
  let e1 := exec_all (exec e (CallCreateScalarFunction 1 "f" 2 1 7))
                     [CallUpdateHook 1 9; CallCreateAggregateFunction 1 "g" 1 1 8] in
  delivered goXDestroy 7 e1 = 0%nat
  ∧ delivered goXDestroy 7 (exec e1 (CallCreateScalarFunction 1 "f" 2 1 11)) = 1%nat
  ∧ delivered goXDestroy 7
      (exec_all (exec e1 (CallCreateScalarFunction 1 "f" 2 1 11)) [CallClose 1]) = 1%nat.
Proof.
  intros e e1.
  refine (proj2 (proj1 function_destructor_delivered_once e false 1 "f" 2 1 7
            [CallUpdateHook 1 9; CallCreateAggregateFunction 1 "g" 1 1 8]
            (CallCreateScalarFunction 1 "f" 2 1 11) [CallClose 1] _ _ _ _ _ _ _));
    try (vm_compute; reflexivity).
  intros k fs Hk. vm_compute in Hk. discriminate.
Defined.

(** C5, the claim as stated fails for a hook: an update hook is bound on an
    open connection and is live (the engine fires it with its token); the
    connection is closed; the engine has made no destructor callback, where
    the claim wants exactly one release callback. *)
Lemma update_hook_close_delivers_no_release :
  let e := snd (sqlite3_open 1 fresh_engine) in
  let e1 := snd (goSqlite3UpdateHook 1 7 e) in
  fire e1 1 (EvUpdate 18 "main" "t" 1)
  = Some (Callback goXUpdateHook 7 (EvUpdate 18 "main" "t" 1))
  ∧ destroyed (snd (sqlite3_close 1 e1)) = []
  ∧ fire (snd (sqlite3_close 1 e1)) 1 (EvUpdate 18 "main" "t" 1) = None.
Proof. repeat split; vm_compute; reflexivity. Qed.

(** ** The registry *)

Section RegistryProperties.
Import Registry.
Context {C : Type}.
Implicit Types (r : registry C) (t : Z) (k : kind) (c : C).

Lemma consistent_initial : consistent (@initial C).
Proof.
  split; [done|]. split.
  - intros t reg Ht. simpl in Ht. by rewrite lookup_empty in Ht.
  - intros db k t Ht. simpl in Ht. by rewrite lookup_empty in Ht.
Qed.

Lemma consistent_release r t r' :
  consistent r → release r t = Ok r' → consistent r'.
Proof.
  intros (Hn & Hl & Ha). unfold release.
  destruct (live r !! t) as [reg|] eqn:Ht; [|done]. intros [= <-].
  destruct (Hl t reg Ht) as [_ Hat].
  split; [done|]. split; simpl.
  - intros t' reg' [Hne Ht']%lookup_delete_Some.
    destruct (Hl t' reg' Ht') as [Hb Hat']. split; [done|].
    rewrite lookup_delete_ne; [done|]. intros Heq. rewrite Heq in Hat. congruence.
  - intros db k t' [Hne Ht']%lookup_delete_Some.
    destruct (Ha db k t' Ht') as (reg' & Hl' & <- & <-).
    exists reg'. split; [|done]. rewrite lookup_delete_ne; [done|].
    intros <-. rewrite Ht in Hl'. injection Hl' as <-. done.
Qed.

Lemma vacate_spec r db k :
  consistent r →
  consistent (vacate r db k)
  ∧ active (vacate r db k) !! (db, k) = None
  ∧ next_token (vacate r db k) = next_token r
  ∧ match active r !! (db, k) with
    | Some prior =>
        release r prior = Ok (vacate r db k)
        ∧ released (vacate r db k) = released r ++ [prior]
    | None => vacate r db k = r
    end.
Proof.
  intros Hc. unfold vacate.
  destruct (active r !! (db, k)) as [prior|] eqn:Hp; [|done].
  destruct Hc as (Hn & Hl & Ha).
  destruct (Ha db k prior Hp) as (reg & Hreg & Hdb & Hk).
  assert (Hrel : release r prior
                 = Ok (Reg (delete prior (live r)) (delete (db, k) (active r))
                           (next_token r) (released r ++ [prior]))).
  { unfold release. rewrite Hreg. by rewrite Hdb, Hk. }
  rewrite Hrel. split; [|split; [|split]].
  - by apply (consistent_release r prior).
  - simpl. apply lookup_delete_eq.
  - done.
  - done.
Qed.

Lemma consistent_activate r db k c :
  consistent r → active r !! (db, k) = None →
  consistent (snd (activate r db k c)).
Proof.
  intros (Hn & Hl & Ha) Hfree. unfold activate, consistent. simpl.
  split; [lia|]. split.
  - intros t reg Ht. destruct (decide (t = next_token r)) as [->|Hne].
    + rewrite lookup_insert_eq in Ht. injection Ht as <-. simpl.
      split; [lia|]. apply lookup_insert_eq.
    + rewrite lookup_insert_ne in Ht by done.
      destruct (Hl t reg Ht) as [Hb Hat]. split; [lia|].
      rewrite lookup_insert_ne; [done|]. intros Heq. rewrite <- Heq in Hat. congruence.
  - intros db' k' t Ht. destruct (decide ((db', k') = (db, k))) as [[= -> ->]|Hne].
    + rewrite lookup_insert_eq in Ht. injection Ht as <-.
      eexists. by rewrite lookup_insert_eq.
    + rewrite lookup_insert_ne in Ht by done.
      destruct (Ha db' k' t Ht) as (reg & Hreg & Hdb & Hk).
      exists reg. split; [|done]. rewrite lookup_insert_ne; [done|].
      intros <-. destruct (Hl _ reg Hreg) as [Hb _]. lia.
Qed.

Lemma consistent_register e r db k c t r' :
  consistent r → register e r db k c = Ok (t, r') → consistent r'.
Proof.
  intros Hc. unfold register. destruct (is_open e db); [|done].
  destruct (vacate_spec r db k Hc) as (Hcv & Hfree & _).
  intros Hact. pose proof (consistent_activate _ db k c Hcv Hfree) as Hca.
  assert (Heq : activate (vacate r db k) db k c = (t, r')) by congruence.
  by rewrite Heq in Hca.
Qed.

Lemma consistent_step r o : consistent r → consistent (step r o).
Proof.
  intros Hc. destruct o as [e db k c|t|t]; simpl; [| |done].
  - destruct (register e r db k c) as [[t r']|] eqn:Hr; [|done].
    by eapply consistent_register.
  - destruct (release r t) as [r'|] eqn:Hr; [|done].
    by eapply consistent_release.
Qed.

Lemma consistent_run ops r : consistent r → consistent (run r ops).
Proof.
  revert r. induction ops as [|o ops IH]; intros r Hc; [done|].
  apply IH. by apply consistent_step.
Qed.

Lemma reachable_consistent r : reachable r → consistent r.
Proof. intros [ops ->]. apply consistent_run, consistent_initial. Qed.

Lemma reachable_step r o : reachable r → reachable (step r o).
Proof.
  intros [ops ->]. exists (ops ++ [o]). unfold run. by rewrite foldl_app.
Qed.

(** A released token stays dead: the arena never issues it again. *)
Lemma release_dead r t r' : consistent r → release r t = Ok r' → dead r' t.
Proof.
  intros (Hn & Hl & Ha). unfold release.
  destruct (live r !! t) as [reg|] eqn:Ht; [|done]. intros [= <-].
  split; simpl; [apply lookup_delete_eq|]. destruct (Hl t reg Ht). lia.
Qed.

Lemma dead_release r t t' r' : dead r t → release r t' = Ok r' → dead r' t.
Proof.
  intros [Hd Hb]. unfold release.
  destruct (live r !! t') as [reg|]; [|done]. intros [= <-].
  split; simpl; [|done]. apply lookup_delete_None. by right.
Qed.

Lemma dead_vacate r t db k : dead r t → dead (vacate r db k) t.
Proof.
  intros Hd. unfold vacate. destruct (active r !! (db, k)) as [prior|]; [|done].
  destruct (release r prior) as [r'|] eqn:Hr; [|done]. by eapply dead_release.
Qed.

Lemma dead_register e r t db k c t' r' :
  dead r t → register e r db k c = Ok (t', r') → dead r' t.
Proof.
  intros Hd. unfold register. destruct (is_open e db); [|done].
  destruct (dead_vacate r t db k Hd) as [Hl Hb].
  unfold activate. intros [= <- <-]. split; simpl; [|lia].
  rewrite lookup_insert_ne; [done|lia].
Qed.

Lemma dead_step r t o : dead r t → dead (step r o) t.
Proof.
  intros Hd. destruct o as [e db k c|t'|t']; simpl; [| |done].
  - destruct (register e r db k c) as [[t' r']|] eqn:Hr; [|done].
    by eapply dead_register.
  - destruct (release r t') as [r'|] eqn:Hr; [|done].
    by eapply dead_release.
Qed.

Lemma dead_run ops r t : dead r t → dead (run r ops) t.
Proof.
  revert r. induction ops as [|o ops IH]; intros r Hd; [done|].
  apply IH. by apply dead_step.
Qed.

(** C6: whatever calls come before and after, once [release] of a token
    has completed the token never resolves again: [resolve] fails on it
    with [DanglingTokenError], a repeated [release] is detected the same
    way, and that error is fatal, not recoverable. *)
Theorem no_resolve_after_release (before after : list (op C)) t r' :
  release (run initial before) t = Ok r' →
  resolve (run r' after) t = Err DanglingTokenError
  ∧ release (run r' after) t = Err DanglingTokenError
  ∧ fatal DanglingTokenError = true.
Proof.
  intros Hr.
  assert (Hd : dead (run r' after) t).
  { apply dead_run. eapply release_dead; [|done].
    apply consistent_run, consistent_initial. }
  destruct Hd as [Hd _]. unfold resolve, release. by rewrite Hd.
Qed.

(** C7: on a registry reached by any calls, [register] fails exactly when
    the connection handle is not valid, and then with
    [AlreadyClosedError].  On a valid handle it returns a token that is not
    null and was never issued before, under which the closure now
    resolves; the closure registered before for the same connection and
    kind, if there was one, no longer resolves and is the one closure
    released; every other registration resolves as before.  The token
    passes the foreign boundary and comes back: given to
    [goSqlite3SetAuthorizer], it is the token the engine fires [goXAuth]
    with, and given to [goSqlite3CreateScalarFunction] for a function the
    engine accepts, it is the application data the engine holds with
    [cXFunc]; either way what comes back resolves to the closure. *)
Theorem register_contract (e : engine) r (db : sqlite3) k c :
  reachable r →
  (register e r db k c = Err AlreadyClosedError ↔ is_open e db = false)
  ∧ (is_open e db = true →
     ∃ t r',
       register e r db k c = Ok (t, r')
       ∧ t ≠ NULL
       ∧ resolve r t = Err DanglingTokenError
       ∧ resolve r' t = Ok c
       ∧ active r' !! (db, k) = Some t
       ∧ match active r !! (db, k) with
         | Some prior =>
             resolve r' prior = Err DanglingTokenError
             ∧ released r' = released r ++ [prior]
         | None => released r' = released r
         end
       ∧ (∀ t', t' ≠ t → active r !! (db, k) ≠ Some t' →
                resolve r' t' = resolve r t')
       ∧ (∀ ev, hook_of ev = Authorizer →
            ∃ cb, fire (snd (goSqlite3SetAuthorizer db t e)) db ev = Some cb
                  ∧ cb_fn cb = goXAuth
                  ∧ resolve r' (cb_udp cb) = Ok c)
       ∧ (∀ name nArg enc, registrable name nArg = true →
            ∃ fs, funcs (snd (goSqlite3CreateScalarFunction db name nArg enc t e))
                    !! (db, name, nArg) = Some fs
                  ∧ fn_xFunc fs = Some cXFunc_ptr
                  ∧ resolve r' (fn_pApp fs) = Ok c)).
Proof.
  intros Hreach. pose proof (reachable_consistent r Hreach) as Hc.
  split.
  { unfold register. destruct (is_open e db); split; intros; done. }
  intros Ho. unfold register. rewrite Ho.
  destruct (vacate_spec r db k Hc) as (Hcv & Hfree & Hnext & Hprior).
  destruct Hc as (Hn & Hl & Ha).
  eexists _, _. split; [reflexivity|]. simpl. rewrite Hnext.
  split; [unfold NULL; lia|].
  assert (Hfresh : live r !! next_token r = None).
  { destruct (live r !! next_token r) as [reg|] eqn:Hlk; [|done].
    destruct (Hl _ reg Hlk). lia. }
  split; [unfold resolve; by rewrite Hfresh|].
  assert (Hres : resolve (snd (activate (vacate r db k) db k c)) (next_token r) = Ok c).
  { unfold resolve. simpl. rewrite Hnext. by rewrite lookup_insert_eq. }
  simpl in Hres. rewrite Hnext in Hres.
  split; [exact Hres|].
  split; [apply lookup_insert_eq|].
  split; [|split; [|split]].
  - destruct (active r !! (db, k)) as [prior|] eqn:Hp.
    + destruct Hprior as [Hrel Hreleased]. split; [|done].
      destruct (Ha db k prior Hp) as (reg & Hreg & _).
      destruct (Hl prior reg Hreg) as [Hb _].
      unfold resolve. simpl. rewrite lookup_insert_ne by lia.
      pose proof (release_dead r prior _ (conj Hn (conj Hl Ha)) Hrel) as [-> _].
      done.
    + by rewrite Hprior.
  - intros t' Hne Hnp. unfold resolve. simpl. rewrite lookup_insert_ne by done.
    destruct (active r !! (db, k)) as [prior|] eqn:Hp; [|by rewrite Hprior].
    destruct Hprior as [Hrel _]. unfold release in Hrel.
    destruct (live r !! prior); [|done]. injection Hrel as <-. simpl.
    rewrite lookup_delete_ne; [done|]. congruence.
  - intros ev Hev. eexists. split; [|split].
    + unfold fire. rewrite Hev.
      unfold goSqlite3SetAuthorizer, sqlite3_set_authorizer. simpl.
      by rewrite install_slot.
    + reflexivity.
    + exact Hres.
  - intros name nArg enc _. eexists. split; [|split].
    + unfold goSqlite3CreateScalarFunction. by apply create_function_slot.
    + reflexivity.
    + exact Hres.
Qed.

(** C4: in every state the registry can reach, at most one registration is
    live for a connection and kind.  A second [register] for the same
    connection and kind first vacates the slot, which releases the prior
    closure and nothing else and leaves no registration active for the
    slot, and then activates the new closure, which is afterwards the only
    registration live for the slot. *)
Theorem one_active_registration_per_slot r :
  reachable r →
  (∀ t1 t2 reg1 reg2,
     live r !! t1 = Some reg1 → live r !! t2 = Some reg2 →
     reg_conn reg1 = reg_conn reg2 → reg_kind reg1 = reg_kind reg2 → t1 = t2)
  ∧ (∀ (e1 e2 : engine) (db : sqlite3) k c1 c2 t1 r1,
       register e1 r db k c1 = Ok (t1, r1) →
       is_open e2 db = true →
       let rv := vacate r1 db k in
       (released rv = released r1 ++ [t1]
        ∧ resolve rv t1 = Err DanglingTokenError
        ∧ active rv !! (db, k) = None
        ∧ ∀ t reg, live rv !! t = Some reg → (reg_conn reg, reg_kind reg) ≠ (db, k))
       ∧ ∃ t2 r2,
           register e2 r1 db k c2 = Ok (t2, r2)
           ∧ (t2, r2) = activate rv db k c2
           ∧ released r2 = released r1 ++ [t1]
           ∧ resolve r2 t1 = Err DanglingTokenError
           ∧ resolve r2 t2 = Ok c2
           ∧ ∀ t reg, live r2 !! t = Some reg →
                      reg_conn reg = db → reg_kind reg = k → t = t2).
Proof.
  intros Hreach. pose proof (reachable_consistent r Hreach) as Hc.
  split.
  { destruct Hc as (_ & Hl & _). intros t1 t2 reg1 reg2 H1 H2 Hdb Hk.
    destruct (Hl t1 reg1 H1) as [_ Ha1]. destruct (Hl t2 reg2 H2) as [_ Ha2].
    rewrite Hdb, Hk in Ha1. congruence. }
  intros e1 e2 db k c1 c2 t1 r1 Hr1 Ho2 rv.
  pose proof (consistent_register e1 r db k c1 t1 r1 Hc Hr1) as Hc1.
  assert (Hact1 : active r1 !! (db, k) = Some t1).
  { unfold register in Hr1. destruct (is_open e1 db); [|done].
    unfold activate in Hr1. injection Hr1 as <- <-. simpl. apply lookup_insert_eq. }
  destruct (vacate_spec r1 db k Hc1) as (Hcv & Hfree & Hnext & Hprior).
  rewrite Hact1 in Hprior. destruct Hprior as [Hrel Hreleased]. fold rv in Hcv, Hfree, Hnext, Hrel, Hreleased.
  pose proof (release_dead r1 t1 rv Hc1 Hrel) as [Hdead Hb].
  assert (Hnone : ∀ t reg, live rv !! t = Some reg →
                           (reg_conn reg, reg_kind reg) ≠ (db, k)).
  { intros t reg Ht Heq. destruct Hcv as (_ & Hl & _).
    destruct (Hl t reg Ht) as [_ Hat]. rewrite Heq in Hat. congruence. }
  split.
  { split; [done|]. split; [unfold resolve; by rewrite Hdead|]. by split. }
  exists (next_token rv), (snd (activate rv db k c2)).
  split; [unfold register; by rewrite Ho2|].
  split; [done|]. simpl.
  split; [done|].
  split; [unfold resolve; simpl; rewrite lookup_insert_ne by lia; by rewrite Hdead|].
  split; [unfold resolve; simpl; by rewrite lookup_insert_eq|].
  intros t reg Ht Hdb Hk.
  destruct (decide (t = next_token rv)) as [->|Hne]; [done|].
  rewrite lookup_insert_ne in Ht by done.
  destruct (Hnone t reg Ht). by rewrite Hdb, Hk.
Qed.
End RegistryProperties.

Lemma no_resolve_after_release_witness :
  let e := snd (sqlite3_open 1 fresh_engine) in
  let before := [Registry.OpRegister e 1 Registry.Update 5%nat] in
  let after := [Registry.OpRegister e 1 Registry.Update 6%nat; Registry.OpResolve 1] in
  let r' := Registry.Reg ∅ ∅ 2 [1] in
  Registry.release (Registry.run Registry.initial before) 1 = Registry.Ok r'
  ∧ Registry.resolve (Registry.run r' after) 1 = Registry.Err Registry.DanglingTokenError.
Proof.
  intros e before after r'.
  assert (Hr : Registry.release (Registry.run Registry.initial before) 1 = Registry.Ok r')
    by (vm_compute; reflexivity).
  split; [exact Hr|].
  exact (proj1 (no_resolve_after_release before after 1 r' Hr)).
Defined.

(** An instance: an authorizer closure is registered on the open connection
    1 and gets the token 1; registering a second one stores it under the
    token 2, releases the first, which no longer resolves, and the engine
    fires [goXAuth] with a token that resolves to the second closure. *)
Lemma register_contract_witness :
  let e := snd (sqlite3_open 1 fresh_engine) in
  let r := Registry.run Registry.initial [Registry.OpRegister e 1 Registry.Authorize 5%nat] in
  let ev := EvAuth 21 (Some "t") None (Some "main") None in
  Registry.resolve r 1 = Registry.Ok 5%nat
  ∧ ∃ t r',
      Registry.register e r 1 Registry.Authorize 6%nat = Registry.Ok (t, r')
      ∧ Registry.resolve r' t = Registry.Ok 6%nat
      ∧ Registry.resolve r' 1 = Registry.Err Registry.DanglingTokenError
      ∧ Registry.released r' = [1]
      ∧ ∃ cb, fire (snd (goSqlite3SetAuthorizer 1 t e)) 1 ev = Some cb
              ∧ Registry.resolve r' (cb_udp cb) = Registry.Ok 6%nat.
Proof.
  intros e r ev.
  assert (Hreach : Registry.reachable r) by (by eexists).
  assert (Ho : is_open e 1 = true) by (vm_compute; reflexivity).
  split; [vm_compute; reflexivity|].
  destruct (proj2 (register_contract e r 1 Registry.Authorize 6%nat Hreach) Ho)
    as (t & r' & Hreg & _ & _ & Hres & _ & Hprior & _ & Hauth & _).
  match type of Hprior with
  | match ?a with _ => _ end =>
      assert (Ha : a = Some 1) by (vm_compute; reflexivity); rewrite Ha in Hprior
  end.
  destruct Hprior as [Hdead Hrel].
  destruct (Hauth ev eq_refl) as (cb & Hfire & _ & Hcb).
  exists t, r'. split; [exact Hreg|]. split; [exact Hres|]. split; [exact Hdead|].
  split; [exact Hrel|]. exists cb. split; [exact Hfire|exact Hcb].
Defined.

Lemma one_active_registration_per_slot_witness :
  let e := snd (sqlite3_open 1 fresh_engine) in
  let r := Registry.run Registry.initial [Registry.OpRegister e 1 Registry.Update 5%nat] in
  let r1 := Registry.step r (Registry.OpRegister e 1 Registry.Update 6%nat) in
  Registry.register e r 1 Registry.Update 6%nat = Registry.Ok (2, r1)
  ∧ Registry.released (Registry.vacate r1 1 Registry.Update) = Registry.released r1 ++ [2].
Proof.
  intros e r r1.
  assert (Hreach : Registry.reachable r) by (by eexists).
  assert (Hr : Registry.register e r 1 Registry.Update 6%nat = Registry.Ok (2, r1))
    by (vm_compute; reflexivity).
  split; [exact Hr|].
  refine (proj1 (proj1 (proj2 (one_active_registration_per_slot r Hreach)
                          e e 1 Registry.Update 6%nat 7%nat 2 r1 Hr _))).
  vm_compute; reflexivity.
Defined.

(** ** Auxiliary data *)

(** X1: auxiliary data attached through [goSqlite3SetAuxdata] is read back by
    [sqlite3_get_auxdata]; attached to argument 0 it is the [goctx] that
    [cXFunc] hands to [goXFunc]; and its destructor is [goXAuxDataDestroy]:
    attaching again to the same argument makes the engine call it once, on
    the datum replaced. *)
Theorem auxdata_reaches_trampoline_and_destructor
    (M : Type)
    (goXFunc : sqlite3_context → ptr → ptr → Z → list sqlite3_value → @cgo M call_state)
    (ctx : sqlite3_context) (N : Z) (ad ad' : ptr) (argc : Z)
    (argv : list sqlite3_value) (m : M) :
  sqlite3_get_auxdata (goSqlite3SetAuxdata ctx N ad) N = ad
  ∧ cXFunc goXFunc (goSqlite3SetAuxdata ctx 0 ad) argc argv m
    = goXFunc (goSqlite3SetAuxdata ctx 0 ad) (sqlite3_user_data ctx) ad argc argv m
  ∧ cs_destroyed (ctx_state (goSqlite3SetAuxdata (goSqlite3SetAuxdata ctx N ad) N ad'))
    = cs_destroyed (ctx_state (goSqlite3SetAuxdata ctx N ad)) ++ [(goXAuxDataDestroy, ad)].
Proof.
  assert (Hget : ∀ N', sqlite3_get_auxdata (goSqlite3SetAuxdata ctx N' ad) N' = ad).
  { intros N'. unfold sqlite3_get_auxdata, goSqlite3SetAuxdata, sqlite3_set_auxdata.
    simpl. by rewrite lookup_insert_eq. }
  split; [apply Hget|]. split.
  - unfold cXFunc. by rewrite Hget.
  - unfold goSqlite3SetAuxdata, sqlite3_set_auxdata. simpl.
    by rewrite lookup_insert_eq.
Qed.

(** ** One slot per hook and per function *)



(** ** How a bound hook stays bound *)

Lemma hook_written_bind c db h :
  hook_written c = Some (db, h) →
  ∃ numOps udp, c = bind_hook h db numOps udp.
Proof.
  destruct c; simpl; try discriminate; intros [= <- <-];
    try (by exists 0, udp); by exists numOps, udp.
Qed.

Lemma unbinds_closes db h c : unbinds db h c = false → closes db c = false.
Proof. by destruct c. Qed.

Lemma unbinds_displaced db h c :
  unbinds db h c = false → hook_displaced c ≠ Some (db, h).
Proof.
  destruct c; simpl; try done; intros Hu%bool_decide_eq_false [= -> <-]; by apply Hu.
Qed.

Lemma bound_exec e db h c :
  bound e db h → unbinds db h c = false → bound (exec e c) db h.
Proof.
  intros [Ho [udp Hs]] Hu. pose proof (unbinds_closes db h c Hu) as Hc.
  pose proof (unbinds_displaced db h c Hu) as Hd.
  split; [by apply exec_keeps_open|].
  destruct (keeps_hook db h c) eqn:Hk.
  - exists udp. by rewrite exec_keeps_hook.
  - unfold keeps_hook in Hk. rewrite Hc in Hk. simpl in Hk.
    rewrite (bool_decide_eq_false_2 _ Hd), andb_true_r in Hk.
    apply negb_false_iff, bool_decide_eq_true in Hk.
    destruct (hook_written_bind c db h Hk) as (numOps & udp' & ->).
    exists udp'. apply exec_bind_hook_slot; [done|].
    intros ->. simpl in Hu.
    rewrite bool_decide_eq_true_2 in Hu by done. simpl in Hu.
    apply Z.leb_gt in Hu. lia.
Qed.

Lemma bound_exec_all later e db h :
  bound e db h → forallb (λ c, negb (unbinds db h c)) later = true →
  bound (exec_all e later) db h.
Proof.
  revert e. induction later as [|c later IH]; intros e Hb Hk; [done|].
  apply forallb_cons_true in Hk as [Hc%negb_true_iff Hl].
  unfold exec_all in *. simpl. apply IH; [|done]. by apply bound_exec.
Qed.

Lemma bound_after_bind e db h numOps udp :
  is_open e db = true → (h = ProgressHandler → 0 < numOps) →
  bound (exec e (bind_hook h db numOps udp)) db h.
Proof.
  intros Ho Hn. split.
  - apply exec_keeps_open; [|done]. by destruct h.
  - exists udp. by apply exec_bind_hook_slot.
Qed.

(** X3: the glue has no call of its own that takes a hook off.  Once one of
    the eight hooks is bound on an open connection, it stays bound to its
    export through any calls except closing the connection, for the progress
    handler a period below one, and for the trace and the profile callback
    binding the other of the two; binding it with the null token does not
    take it off either, the export is then called on the null token.  Each
    of the excepted calls empties the slot. *)
Theorem bound_hook_stays_bound
    (e : engine) (db : sqlite3) (numOps : Z) (udp : ptr) (later : list call) (ev : event) :
  is_open e db = true →
  (hook_of ev = ProgressHandler → 0 < numOps) →
  forallb (λ c, negb (unbinds db (hook_of ev) c)) later = true →
  let e1 := exec_all (exec e (bind_hook (hook_of ev) db numOps udp)) later in
  (∃ udp', fire e1 db ev = Some (Callback (trampoline (hook_of ev)) udp' ev))
  ∧ fire (exec e1 (bind_hook (hook_of ev) db numOps NULL)) db ev
    = Some (Callback (trampoline (hook_of ev)) NULL ev)
  ∧ (∀ c, unbinds db (hook_of ev) c = true → fire (exec e1 c) db ev = None).
Proof.
  intros Ho Hn Hl e1.
  assert (Hb : bound e1 db (hook_of ev)).
  { apply bound_exec_all; [|done]. by apply bound_after_bind. }
  destruct Hb as [Ho1 [udp' Hs]].
  split; [|split].
  - exists udp'. unfold fire. by rewrite Hs.
  - unfold fire. by rewrite exec_bind_hook_slot.
  - intros c Hc. unfold fire.
    assert (Ht : ∀ h h' f udp0,
              hooks (take_off db h' (snd (install db h f udp0 e1))) !! (db, h') = None).
    { intros. apply take_off_slot. by rewrite install_keeps_open. }
    destruct c; simpl in Hc; try discriminate.
    + apply bool_decide_eq_true in Hc as [-> Hh]. simpl. rewrite Hh. by rewrite Ht.
    + apply bool_decide_eq_true in Hc as [-> Hh]. simpl. rewrite Hh. by rewrite Ht.
    + apply andb_prop in Hc as [[-> Hh]%bool_decide_eq_true Hle].
      apply Z.leb_le in Hle. rewrite Hh. simpl.
      unfold goSqlite3ProgressHandler, sqlite3_progress_handler, discard, install.
      simpl. rewrite Ho1.
      destruct (Z.ltb_spec 0 numOps0); [lia|]. simpl.
      by rewrite lookup_delete_eq.
    + apply bool_decide_eq_true in Hc as ->. simpl.
      unfold sqlite3_close. rewrite Ho1. simpl.
      rewrite (proj2 (map_lookup_filter_None _ _ _)); [done|].
      right. intros s _ Hn'. by apply Hn'.
Qed.

(** An instance: a trace callback bound with the token 7 stays through a
    commit hook and a progress handler; binding it with the null token leaves
    [goXTrace] registered on the null token, and binding the profile callback
    takes it off. *)
Lemma bound_hook_stays_bound_witness :
  let e := snd (sqlite3_open 1 fresh_engine) in
  let later := [CallCommitHook 1 NULL; CallProgressHandler 1 0 5; CallClose 2] in
  let ev := EvTrace "select 1" in
  let e1 := exec_all (exec e (CallTrace 1 7)) later in
  fire (exec e1 (CallTrace 1 NULL)) 1 ev = Some (Callback goXTrace NULL ev)
  ∧ fire (exec e1 (CallProfile 1 9)) 1 ev = None.
Proof.
  intros e later ev e1.
  assert (Ho : is_open e 1 = true) by (vm_compute; reflexivity).
  assert (Hn : hook_of ev = ProgressHandler → 0 < 0) by (simpl; discriminate).
  assert (Hl : forallb (λ c, negb (unbinds 1 (hook_of ev) c)) later = true)
    by (vm_compute; reflexivity).
  destruct (bound_hook_stays_bound e 1 0 7 later ev Ho Hn Hl) as (_ & Hnull & Hoff).
  split; [exact Hnull|]. exact (Hoff (CallProfile 1 9) eq_refl).
Defined.

(** ** Saving and restoring a hook *)

Lemma rebind_install h f :
  rebind h = Some f →
  ∀ db udp e, f db udp e = install db h (Some (trampoline h)) udp e.
Proof. destruct h; simpl; try discriminate; by intros [= <-]. Qed.

Lemma set_hooks_id e : set_hooks (hooks e) e = e.
Proof. by destruct e. Qed.

Lemma set_hooks_twice h1 h2 e : set_hooks h2 (set_hooks h1 e) = set_hooks h2 e.
Proof. reflexivity. Qed.

(** X4: the returned token lets a caller put a hook back.  For the commit,
    rollback and update hooks on an open connection: when the hook was bound
    through the glue with the token [p0], binding [p1] returns [p0], and
    binding the returned token again leaves the engine exactly as it was.
    When the slot was empty the function returns the null token, and binding
    that does not empty the slot again: the export stays registered, on the
    null token. *)
Theorem returned_token_restores_hook
    (e : engine) (db : sqlite3) (h : hook) (f : sqlite3 → ptr → eng ptr) (p0 p1 : ptr) :
  rebind h = Some f →
  is_open e db = true →
  (hooks e !! (db, h) = Some (Slot (trampoline h) p0) →
   fst (f db p1 e) = p0
   ∧ snd (f db (fst (f db p1 e)) (snd (f db p1 e))) = e)
  ∧ (hooks e !! (db, h) = None →
     fst (f db p1 e) = NULL
     ∧ hooks (snd (f db (fst (f db p1 e)) (snd (f db p1 e)))) !! (db, h)
       = Some (Slot (trampoline h) NULL)).
Proof.
  intros Hf Ho. pose proof (rebind_install h f Hf) as Hi.
  assert (Ho1 : is_open (snd (f db p1 e)) db = true).
  { rewrite Hi, install_keeps_open. done. }
  split; intros Hs.
  - assert (Hret : fst (f db p1 e) = p0).
    { rewrite Hi, install_open by done. simpl. by rewrite Hs. }
    split; [done|]. rewrite Hret.
    rewrite (Hi db p0), install_open by done. simpl.
    rewrite Hi, install_open by done. simpl.
    rewrite set_hooks_twice, insert_insert_eq, insert_id by done.
    apply set_hooks_id.
  - assert (Hret : fst (f db p1 e) = NULL).
    { rewrite Hi, install_open by done. simpl. by rewrite Hs. }
    split; [done|]. rewrite Hret.
    rewrite (Hi db NULL). by apply install_slot.
Qed.

Lemma returned_token_restores_hook_witness :
  let e := snd (goSqlite3UpdateHook 1 7 (snd (sqlite3_open 1 fresh_engine))) in
  fst (goSqlite3UpdateHook 1 8 e) = 7
  ∧ snd (goSqlite3UpdateHook 1 (fst (goSqlite3UpdateHook 1 8 e))
           (snd (goSqlite3UpdateHook 1 8 e))) = e.
Proof.
  intros e.
  refine (proj1 (returned_token_restores_hook e 1 UpdateHook goSqlite3UpdateHook 7 8 _ _) _);
    vm_compute; reflexivity.
Defined.

(** ** What the slots hold, in every state the glue can reach *)

Lemma well_formed_fresh : well_formed fresh_engine.
Proof.
  split.
  - intros db h s Hs. simpl in Hs. by rewrite lookup_empty in Hs.
  - intros key fs Hk. simpl in Hk. by rewrite lookup_empty in Hk.
Qed.

Lemma well_formed_same e e' :
  opened e' = opened e → hooks e' = hooks e → funcs e' = funcs e →
  well_formed e → well_formed e'.
Proof.
  intros Hop Hh Hf [Hwh Hwf]. unfold well_formed, is_open.
  rewrite Hop, Hh, Hf. by split.
Qed.

Lemma well_formed_install e db h fn udp :
  well_formed e → (∀ f, fn = Some f → f = trampoline h) →
  well_formed (snd (install db h fn udp e)).
Proof.
  intros [Hwh Hwf] Hfn. unfold install.
  destruct (is_open e db) eqn:Ho; [|by split].
  destruct fn as [f|]; simpl; (split; [|exact Hwf]).
  - intros db' h' s Hs. simpl in Hs.
    destruct (decide ((db', h') = (db, h))) as [[= -> ->]|Hne].
    + rewrite lookup_insert_eq in Hs. injection Hs as <-.
      split; [done|]. simpl. by apply Hfn.
    + rewrite lookup_insert_ne in Hs by done. by apply Hwh.
  - intros db' h' s Hs. simpl in Hs.
    apply lookup_delete_Some in Hs as [_ Hs]. by apply Hwh.
Qed.

Lemma well_formed_take_off e db h : well_formed e → well_formed (take_off db h e).
Proof.
  intros [Hwh Hwf]. unfold take_off. destruct (is_open e db); [|by split].
  split; [|exact Hwf].
  intros db' h' s Hs. simpl in Hs.
  apply lookup_delete_Some in Hs as [_ Hs]. by apply Hwh.
Qed.

Lemma exec_create_shape e c key p :
  func_written c = Some (key, p) →
  ∃ fs, fn_pApp fs = p ∧ fn_xDestroy fs = Some goXDestroy ∧ glue_shape fs
        ∧ exec e c
          = if is_open e key.1.1
            then set_funcs (<[key := fs]> (funcs e)) (destroyed e ++ owed (funcs e !! key)) e
            else e.
Proof.
  destruct c; simpl; try discriminate; intros [= <- <-]; simpl.
  - eexists (FuncSlot eTextRep pApp (Some cXFunc_ptr) None None (Some goXDestroy)).
    split; [done|]. split; [done|]. split; [by left|].
    unfold goSqlite3CreateScalarFunction, sqlite3_create_function_v2.
    by destruct (is_open e db).
  - eexists (FuncSlot eTextRep pApp None (Some cXStep_ptr) (Some cXFinal_ptr) (Some goXDestroy)).
    split; [done|]. split; [done|]. split; [by right|].
    unfold goSqlite3CreateAggregateFunction, sqlite3_create_function_v2.
    by destruct (is_open e db).
Qed.

Lemma well_formed_exec e c : well_formed e → well_formed (exec e c).
Proof.
  intros Hw.
  assert (Hcfg : ∀ op args, well_formed (snd (sqlite3_config op args e))).
  { intros op args. apply (well_formed_same e); try done;
      unfold sqlite3_config; destruct (initialized e); try done;
      destruct (op =? _); try done; by destruct args as [|[] [|[] []]]. }
  destruct (func_written c) as [[key p]|] eqn:Hfw.
  { destruct (exec_create_shape e c key p Hfw) as (fs & _ & Hd & Hsh & ->).
    destruct (is_open e key.1.1) eqn:Ho; [|done].
    destruct Hw as [Hwh Hwf]. split; [exact Hwh|].
    intros k fs' Hk. simpl in Hk.
    destruct (decide (k = key)) as [->|Hne].
    - rewrite lookup_insert_eq in Hk. by injection Hk as <-.
    - rewrite lookup_insert_ne in Hk by done. by apply Hwf. }
  destruct c; simpl in *; try discriminate;
    try (apply well_formed_install; [done|]; by intros f [= <-]);
    try (apply well_formed_take_off, well_formed_install; [done|]; by intros f [= <-]).
  - unfold goSqlite3ProgressHandler, sqlite3_progress_handler, discard. simpl.
    apply well_formed_install; [done|].
    destruct (0 <? numOps); [by intros f [= <-]|done].
  - unfold goSqlite3ConfigLog. destruct (negb _); apply Hcfg.
  - apply Hcfg.
  - apply Hcfg.
  - destruct Hw as [Hwh Hwf]. unfold well_formed, is_open. simpl. split.
    + intros db' h s Hs. destruct (Hwh db' h s Hs) as [Ho ?]. split; [|done].
      apply bool_decide_eq_true in Ho. apply bool_decide_eq_true.
      apply elem_of_union. by right.
    + intros k fs Hk. destruct (Hwf k fs Hk) as [Ho ?]. split; [|done].
      apply bool_decide_eq_true in Ho. apply bool_decide_eq_true.
      apply elem_of_union. by right.
  - unfold sqlite3_close. destruct (is_open e db) eqn:Ho; [|done].
    destruct Hw as [Hwh Hwf]. unfold well_formed, is_open. simpl. split.
    + intros db' h s [Hs Hn]%map_lookup_filter_Some.
      destruct (Hwh db' h s Hs) as [Ho' ?]. split; [|done].
      apply bool_decide_eq_true in Ho'. apply bool_decide_eq_true.
      unfold hook_of_conn in Hn. simpl in Hn.
      apply elem_of_difference. split; [done|]. by rewrite elem_of_singleton.
    + intros k fs [Hk Hn]%map_lookup_filter_Some.
      destruct (Hwf k fs Hk) as [Ho' ?]. split; [|done].
      apply bool_decide_eq_true in Ho'. apply bool_decide_eq_true.
      unfold of_conn in Hn. simpl in Hn.
      apply elem_of_difference. split; [done|]. by rewrite elem_of_singleton.
Qed.

Lemma well_formed_exec_all cs e : well_formed e → well_formed (exec_all e cs).
Proof.
  revert e. induction cs as [|c cs IH]; intros e Hw; [done|].
  apply IH. by apply well_formed_exec.
Qed.

(** X5: whatever calls are made through the glue, in whatever order, with
    connections opened and closed in between, the engine only ever holds
    what the glue registers: each hook it fires calls the export of that very
    hook, on an open connection, and each function slot belongs to an open
    connection and holds the scalar trampoline alone or the two aggregate
    trampolines, with [goXDestroy] as its destructor. *)
Theorem engine_holds_matching_exports (cs : list call) :
  let e := exec_all fresh_engine cs in
  (∀ db ev, match fire e db ev with
            | Some cb =>
                is_open e db = true
                ∧ cb_fn cb = trampoline (hook_of ev) ∧ cb_args cb = ev
            | None => True
            end)
  ∧ (∀ key, match funcs e !! key with
            | Some fs =>
                is_open e key.1.1 = true
                ∧ fn_xDestroy fs = Some goXDestroy ∧ glue_shape fs
            | None => True
            end).
Proof.
  intros e.
  destruct (well_formed_exec_all cs fresh_engine well_formed_fresh) as [Hwh Hwf].
  fold e in Hwh, Hwf. split.
  - intros db ev. unfold fire.
    destruct (hooks e !! (db, hook_of ev)) as [s|] eqn:Hs; [|done].
    destruct (Hwh db (hook_of ev) s Hs) as [Ho Hfn]. by simpl.
  - intros key. destruct (funcs e !! key) as [fs|] eqn:Hk; [|done].
    by apply Hwf.
Qed.

(** ** Which tokens the engine destroys *)

Lemma owed_elem_fn x fs : x ∈ owed (Some fs) → fn_xDestroy fs = Some x.1.
Proof.
  unfold owed. destruct (fn_xDestroy fs); [|by intros ?%elem_of_nil].
  by intros ->%list_elem_of_singleton.
Qed.

Lemma close_calls_elem_fn x db f :
  x ∈ close_calls db f →
  ∃ k fs, f !! k = Some fs ∧ fn_xDestroy fs = Some x.1 ∧ x.2 = fn_pApp fs.
Proof.
  unfold close_calls. intros ([k fs] & Hx & Hk)%list_elem_of_bind.
  apply elem_of_map_to_list, map_lookup_filter_Some in Hk as [Hk _].
  exists k, fs. split; [done|]. split; [by apply owed_elem_fn|by apply owed_elem].
Qed.

Lemma stored_by_app cs c p : stored_by cs p → stored_by (cs ++ [c]) p.
Proof.
  intros (c' & Hin & Hs). exists c'. split; [|done].
  apply elem_of_app. by left.
Qed.

Lemma stored_by_last cs c key p : func_written c = Some (key, p) → stored_by (cs ++ [c]) p.
Proof.
  intros Hw. exists c. split.
  - apply elem_of_app. right. by apply list_elem_of_singleton.
  - unfold stores_token. rewrite Hw. by apply bool_decide_eq_true.
Qed.

Lemma accounted_exec cs e c : accounted cs e → accounted (cs ++ [c]) (exec e c).
Proof.
  intros [Hf Hd].
  assert (Hf' : ∀ key fs, funcs e !! key = Some fs →
            fn_xDestroy fs = Some goXDestroy ∧ stored_by (cs ++ [c]) (fn_pApp fs)).
  { intros key fs Hk. destruct (Hf key fs Hk). split; [done|]. by apply stored_by_app. }
  assert (Hd' : ∀ x, x ∈ destroyed e → x.1 = goXDestroy ∧ stored_by (cs ++ [c]) x.2).
  { intros x Hx. destruct (Hd x Hx). split; [done|]. by apply stored_by_app. }
  destruct (func_written c) as [[key p]|] eqn:Hfw.
  - destruct (exec_create e c key p Hfw) as (fs & Hp & Hde & ->).
    destruct (is_open e key.1.1); [|by split]. split; simpl.
    + intros k fs' Hk. destruct (decide (k = key)) as [->|Hne].
      * rewrite lookup_insert_eq in Hk. injection Hk as <-. split; [done|].
        rewrite Hp. by eapply stored_by_last.
      * rewrite lookup_insert_ne in Hk by done. by eapply Hf'.
    + intros x [Hx|Hx]%elem_of_app; [by apply Hd'|].
      destruct (funcs e !! key) as [fs'|] eqn:Hk; [|by apply elem_of_nil in Hx].
      destruct (Hf' key fs' Hk) as [Hde' Hst].
      pose proof (owed_elem_fn x fs' Hx) as Hx1.
      pose proof (owed_elem x fs' Hx) as Hx2.
      rewrite Hx2. split; [congruence|done].
  - destruct (close_or_not c) as [[db ->]|Hnc].
    + simpl. unfold sqlite3_close. destruct (is_open e db); [|by split].
      split; simpl.
      * intros k fs [Hk _]%map_lookup_filter_Some. by eapply Hf'.
      * intros x [Hx|Hx]%elem_of_app; [by apply Hd'|].
        destruct (close_calls_elem_fn x db (funcs e) Hx) as (k & fs & Hk & Hx1 & Hx2).
        destruct (Hf' k fs Hk) as [Hde' Hst].
        rewrite Hx2. split; [congruence|done].
    + destruct (exec_inert e c Hfw Hnc) as [Hfe Hde].
      unfold accounted. rewrite Hfe, Hde. by split.
Qed.

Lemma accounted_exec_all cs : accounted cs (exec_all fresh_engine cs).
Proof.
  induction cs as [|c cs IH] using rev_ind.
  - split.
    + intros key fs Hk. simpl in Hk. by rewrite lookup_empty in Hk.
    + intros x Hx. by apply elem_of_nil in Hx.
  - unfold exec_all. rewrite foldl_app. simpl. by apply accounted_exec.
Qed.

(** What the context of a function call holds after a sequence of
    [goSqlite3SetAuxdata] calls: every datum carries [goXAuxDataDestroy] and
    was attached by one of the calls, and so was every datum destroyed. *)
Lemma set_auxdata_all_accounted pApp l :
  let st := ctx_state (set_auxdata_all (new_context pApp) l) in
  (∀ N a, cs_auxdata st !! N = Some a → a.2 = Some goXAuxDataDestroy ∧ (N, a.1) ∈ l)
  ∧ (∀ x, x ∈ cs_destroyed st → x.1 = goXAuxDataDestroy ∧ ∃ N, (N, x.2) ∈ l).
Proof.
  induction l as [|[N ad] l IH] using rev_ind.
  - split.
    + intros N a Ha. simpl in Ha. by rewrite lookup_empty in Ha.
    + intros x Hx. by apply elem_of_nil in Hx.
  - unfold set_auxdata_all in *. rewrite foldl_app. simpl.
    destruct IH as [Haux Hdes].
    set (ctx := foldl (λ ctx x, goSqlite3SetAuxdata ctx x.1 x.2) (new_context pApp) l) in *.
    split.
    + intros N' a Ha. destruct (decide (N' = N)) as [->|Hne].
      * rewrite lookup_insert_eq in Ha. injection Ha as <-. simpl.
        split; [done|]. apply elem_of_app. right. by apply list_elem_of_singleton.
      * rewrite lookup_insert_ne in Ha by done.
        destruct (Haux N' a Ha) as [Hd Hin]. split; [done|].
        apply elem_of_app. by left.
    + intros x [Hx|Hx]%elem_of_app.
      * destruct (Hdes x Hx) as [Hd [N' Hin]]. split; [done|].
        exists N'. apply elem_of_app. by left.
      * destruct (cs_auxdata (ctx_state ctx) !! N) as [[p' d']|] eqn:Ha;
          [|by apply elem_of_nil in Hx].
        destruct (Haux N (p', d') Ha) as [Hd Hin]. simpl in Hd, Hin. subst d'.
        simpl in Hx. apply list_elem_of_singleton in Hx as ->. simpl.
        split; [done|]. exists N. apply elem_of_app. by left.
Qed.

(** X6: which tokens get destroyed.  Whatever calls are made on the engine
    through the glue from the start, every destructor callback the engine
    makes for them is [goXDestroy] on a token that an earlier call of the
    sequence registered as application data of a scalar or aggregate
    function: a token that was only ever given to a hook or to the log sink
    is never handed to a destructor.  And whatever [goSqlite3SetAuxdata]
    calls are made on the context of a function call, every destructor
    callback the engine makes for them is [goXAuxDataDestroy] on a datum that
    one of those calls attached. *)
Theorem only_function_tokens_destroyed :
  (∀ (cs : list call) (d : fnptr) (p : ptr),
     (d, p) ∈ destroyed (exec_all fresh_engine cs) →
     d = goXDestroy
     ∧ ∃ c, c ∈ cs
            ∧ (∃ db name nArg enc,
                 c = CallCreateScalarFunction db name nArg enc p
                 ∨ c = CallCreateAggregateFunction db name nArg enc p))
  ∧ (∀ (pApp : ptr) (l : list (Z * ptr)) (d : fnptr) (p : ptr),
       (d, p) ∈ cs_destroyed (ctx_state (set_auxdata_all (new_context pApp) l)) →
       d = goXAuxDataDestroy ∧ ∃ N, (N, p) ∈ l).
Proof.
  split.
  - intros cs d p Hx.
    destruct (accounted_exec_all cs) as [_ Hd].
    destruct (Hd (d, p) Hx) as [Hfn (c & Hin & Hs)]. simpl in *.
    split; [done|]. exists c. split; [done|].
    unfold stores_token in Hs.
    destruct c; simpl in Hs; try discriminate;
      apply bool_decide_eq_true in Hs; subst; eauto 10.
  - intros pApp l d p Hx.
    destruct (set_auxdata_all_accounted pApp l) as [_ Hd].
    exact (Hd (d, p) Hx).
Qed.

(** An instance: an update hook and a function are registered on a
    connection that is then closed, and the one destructor callback is
    [goXDestroy] on the function's token; in a function call, a datum is
    attached to argument 0 twice, and the one destructor callback is
    [goXAuxDataDestroy] on the first datum. *)
Lemma only_function_tokens_destroyed_witness :
  let cs := [CallOpen 1; CallUpdateHook 1 9; CallCreateScalarFunction 1 "f" 2 1 7;
             CallClose 1] in
  let l := [(0, 3); (0, 4)] in
  ((goXDestroy, 7) ∈ destroyed (exec_all fresh_engine cs)
   ∧ ∃ c, c ∈ cs
          ∧ (∃ db name nArg enc,
               c = CallCreateScalarFunction db name nArg enc 7
               ∨ c = CallCreateAggregateFunction db name nArg enc 7))
  ∧ ((goXAuxDataDestroy, 3) ∈ cs_destroyed (ctx_state (set_auxdata_all (new_context 7) l))
     ∧ ∃ N, (N, 3) ∈ l).
Proof.
  intros cs l.
  assert (Hin : (goXDestroy, 7) ∈ destroyed (exec_all fresh_engine cs)).
  { vm_compute. apply list_elem_of_singleton. reflexivity. }
  assert (Hin' : (goXAuxDataDestroy, 3)
                 ∈ cs_destroyed (ctx_state (set_auxdata_all (new_context 7) l))).
  { vm_compute. apply list_elem_of_singleton. reflexivity. }
  split.
  - split; [exact Hin|].
    exact (proj2 (proj1 only_function_tokens_destroyed cs goXDestroy 7 Hin)).
  - split; [exact Hin'|].
    exact (proj2 (proj2 only_function_tokens_destroyed 7 l goXAuxDataDestroy 3 Hin')).
Defined.

(** ** Connections do not interfere *)

Lemma other_conn_keeps (c : call) (db : sqlite3) :
  conn_of c ≠ Some db →
  (∀ h, keeps_hook db h c = true) ∧ (∀ name nArg, keeps_func (db, name, nArg) c = true).
Proof.
  intros Hc. unfold keeps_hook, keeps_func.
  destruct c; simpl in *; split; intros;
    repeat (apply andb_true_intro; split); try done;
    apply negb_true_iff, bool_decide_eq_false; congruence.
Qed.

Lemma exec_other_open e c db :
  conn_of c ≠ Some db → is_open (exec e c) db = is_open e db.
Proof.
  intros Hc.
  assert (Hcfg : ∀ op args, is_open (snd (sqlite3_config op args e)) db = is_open e db).
  { intros op args. unfold sqlite3_config. destruct (initialized e); [done|].
    destruct (op =? _); [|done]. by destruct args as [|[] [|[] []]]. }
  destruct c; simpl in *; try apply install_keeps_open;
    try (by rewrite take_off_keeps_open, install_keeps_open); try apply Hcfg.
  - unfold goSqlite3ConfigLog. destruct (negb _); apply Hcfg.
  - unfold goSqlite3CreateScalarFunction, sqlite3_create_function_v2.
    by destruct (is_open e db0).
  - unfold goSqlite3CreateAggregateFunction, sqlite3_create_function_v2.
    by destruct (is_open e db0).
  - unfold is_open. simpl. apply bool_decide_ext.
    rewrite elem_of_union, elem_of_singleton. split; [|by right].
    intros [->|?]; [congruence|done].
  - unfold sqlite3_close. destruct (is_open e db0); [|done].
    unfold is_open. simpl. apply bool_decide_ext.
    rewrite elem_of_difference, elem_of_singleton. split; [by intros [? _]|].
    intros ?. split; [done|]. congruence.
Qed.

Lemma exec_all_other cs e db :
  forallb (λ c, negb (bool_decide (conn_of c = Some db))) cs = true →
  is_open (exec_all e cs) db = is_open e db
  ∧ (∀ h, hooks (exec_all e cs) !! (db, h) = hooks e !! (db, h))
  ∧ (∀ name nArg, funcs (exec_all e cs) !! (db, name, nArg) = funcs e !! (db, name, nArg)).
Proof.
  revert e. induction cs as [|c cs IH]; intros e Hk; [done|].
  apply forallb_cons_true in Hk as [Hc%negb_true_iff%bool_decide_eq_false Hl].
  destruct (IH (exec e c) Hl) as (Ho & Hh & Hf).
  destruct (other_conn_keeps c db Hc) as [Hkh Hkf].
  unfold exec_all in *. simpl. split; [|split].
  - rewrite Ho. by apply exec_other_open.
  - intros h. rewrite Hh. by apply exec_keeps_hook.
  - intros name nArg. rewrite Hf. by apply exec_keeps_func.
Qed.

(** X8: what is registered on one connection is out of reach of the calls
    made on other connections and of the process-wide configuration calls.
    Through any such calls, closing and opening other connections included,
    the connection stays open or closed as it was, the engine fires its hooks
    with the same exports and tokens, and its functions are evaluated by the
    same trampolines on the same application data. *)
Theorem other_connections_do_not_interfere
    (e : engine) (db : sqlite3) (cs : list call) :
  forallb (λ c, negb (bool_decide (conn_of c = Some db))) cs = true →
  let e' := exec_all e cs in
  is_open e' db = is_open e db
  ∧ (∀ ev, fire e' db ev = fire e db ev)
  ∧ (∀ name nArg, funcs e' !! (db, name, nArg) = funcs e !! (db, name, nArg))
  ∧ (∀ (M : Type) goXFunc goXStep name argv (m : M),
       eval_scalar goXFunc goXStep e' db name argv m
       = eval_scalar goXFunc goXStep e db name argv m)
  ∧ (∀ (M : Type) goXFunc goXStep goXFinal name nArg rows (m : M),
       eval_aggregate goXFunc goXStep goXFinal e' db name nArg rows m
       = eval_aggregate goXFunc goXStep goXFinal e db name nArg rows m).
Proof.
  intros Hk e'. destruct (exec_all_other cs e db Hk) as (Ho & Hh & Hf).
  fold e' in Ho, Hh, Hf.
  split; [done|]. split; [|split; [done|split]].
  - intros ev. unfold fire. by rewrite Hh.
  - intros. unfold eval_scalar. by rewrite Hf.
  - intros. unfold eval_aggregate. by rewrite Hf.
Qed.

Lemma other_connections_do_not_interfere_witness :
  let e := exec_all fresh_engine [CallOpen 1; CallOpen 2; CallCommitHook 1 7; CallCommitHook 2 8] in
  let cs := [CallCommitHook 2 9; CallConfigLog 5; CallClose 2; CallOpen 3] in
  fire (exec_all e cs) 1 EvCommit = Some (Callback goXCommitHook 7 EvCommit).
Proof.
  intros e cs.
  refine (eq_trans (proj1 (proj2 (other_connections_do_not_interfere e 1 cs _)) EvCommit) _);
    vm_compute; reflexivity.
Defined.

(** ** Registering the same token again *)

Lemma exec_bind_hook_state e h db numOps udp :
  is_open e db = true → (h = ProgressHandler → 0 < numOps) →
  exec e (bind_hook h db numOps udp)
  = match hook_displaced (bind_hook h db numOps udp) with
    | Some k =>
        set_hooks (delete k (<[(db, h) := Slot (trampoline h) udp]> (hooks e))) e
    | None => set_hooks (<[(db, h) := Slot (trampoline h) udp]> (hooks e)) e
    end.
Proof.
  intros Ho Hn.
  assert (Hi : ∀ h', snd (install db h' (Some (trampoline h')) udp e)
                     = set_hooks (<[(db, h') := Slot (trampoline h') udp]> (hooks e)) e).
  { intros h'. by rewrite install_open. }
  assert (Ht : ∀ h' h'',
            take_off db h'' (snd (install db h' (Some (trampoline h')) udp e))
            = set_hooks (delete (db, h'') (<[(db, h') := Slot (trampoline h') udp]> (hooks e))) e).
  { intros h' h''. rewrite Hi. unfold take_off. simpl.
    replace (is_open _ db) with true by (symmetry; exact Ho). reflexivity. }
  destruct h; simpl; try apply Hi; try apply Ht.
  unfold goSqlite3ProgressHandler, sqlite3_progress_handler, discard. simpl.
  destruct (Z.ltb_spec 0 numOps); [apply Hi|specialize (Hn eq_refl); lia].
Qed.

Lemma bind_twice_map (m : gmap (Z * hook) slot) k k' s :
  k' ≠ k → delete k' (<[k := s]> (delete k' (<[k := s]> m))) = delete k' (<[k := s]> m).
Proof.
  intros Hne. apply map_eq. intros i.
  destruct (decide (k' = i)) as [->|H1]; [by rewrite !lookup_delete_eq|].
  rewrite !lookup_delete_ne by done.
  destruct (decide (k = i)) as [->|H2]; [by rewrite !lookup_insert_eq|].
  rewrite !lookup_insert_ne by done. by rewrite lookup_delete_ne, lookup_insert_ne.
Qed.

(** X10: binding a hook again with the token it already has changes nothing
    in the engine.  Registering a function again with the application data it
    already has is not harmless: the engine calls [goXDestroy] on that token,
    as on any token it replaces, while the slot goes on holding it. *)
Theorem same_token_again
    (e : engine) (db : sqlite3) (h : hook) (numOps : Z) (udp : ptr)
    (reg : call) (name : string) (nArg : Z) (p : ptr) :
  is_open e db = true →
  (h = ProgressHandler → 0 < numOps) →
  func_written reg = Some (db, name, nArg, p) →
  exec (exec e (bind_hook h db numOps udp)) (bind_hook h db numOps udp)
  = exec e (bind_hook h db numOps udp)
  ∧ (let e1 := exec e reg in
     let e2 := exec e1 reg in
     destroyed e2 = destroyed e1 ++ [(goXDestroy, p)]
     ∧ ∃ fs, funcs e2 !! (db, name, nArg) = Some fs
             ∧ fn_pApp fs = p ∧ fn_xDestroy fs = Some goXDestroy).
Proof.
  intros Ho Hn Hw. split.
  - assert (Ho1 : is_open (exec e (bind_hook h db numOps udp)) db = true).
    { apply exec_keeps_open; [|done]. by destruct h. }
    rewrite (exec_bind_hook_state (exec e _)) by done.
    rewrite (exec_bind_hook_state e) by done.
    destruct (hook_displaced (bind_hook h db numOps udp)) as [k|] eqn:Hd; simpl.
    + rewrite set_hooks_twice, bind_twice_map; [done|].
      destruct h; simpl in Hd; try discriminate; injection Hd as <-; discriminate.
    + by rewrite set_hooks_twice, insert_insert_eq.
  - intros e1 e2.
    destruct (exec_create e reg (db, name, nArg) p Hw) as (fs & Hp & Hd & He1).
    simpl in He1. rewrite Ho in He1. fold e1 in He1.
    assert (Ho1 : is_open e1 db = true) by (by rewrite He1).
    destruct (exec_create e1 reg (db, name, nArg) p Hw) as (fs' & Hp' & Hd' & He2).
    simpl in He2. rewrite Ho1 in He2. fold e2 in He2.
    rewrite He2. unfold set_funcs. cbn [destroyed funcs].
    match goal with
    | |- context [owed ?t] => assert (Hk1 : t = Some fs)
    end.
    { rewrite He1. simpl. apply lookup_insert_eq. }
    rewrite Hk1. unfold owed. rewrite Hd, Hp.
    split; [done|]. exists fs'. by rewrite lookup_insert_eq.
Qed.

Lemma same_token_again_witness :
  let e := snd (sqlite3_open 1 fresh_engine) in
  let reg := CallCreateScalarFunction 1 "f" 2 1 7 in
  destroyed (exec (exec e reg) reg) = destroyed (exec e reg) ++ [(goXDestroy, 7)].
Proof.
  intros e reg.
  refine (proj1 (proj2 (same_token_again e 1 CommitHook 0 5 reg "f" 2 7 _ _ _)));
    try (vm_compute; reflexivity).
  discriminate.
Defined.
